(** * The Redis queue worker of cog: [python/cog/server/redis_queue.py]

    A shallow embedding of the [timeout] context manager and of the
    [RedisQueueWorker] class, and the properties of the worker loop and
    of the prediction streaming protocol that the specification states.

    The worker talks to three collaborators whose code is elsewhere: the
    stream service (redis), the prediction runner and the input decoder /
    output encoder.  The stream service is modelled by the commands the
    worker issues (a trace of events) and by scripted replies; the runner
    is a black box, a state of an arbitrary type [R] with the nine
    operations the worker calls, each of which may change the state,
    return a value or raise.

    What the model assumes of the environment:
    - a command sent to the stream service returns (the failures of the
      service itself are not modelled);
    - SIGALRM is delivered asynchronously; its [TimeoutError] shows in
      the model as an exception of the call of the runner during which
      it arrives, which any call of the runner may raise;
    - SIGTERM runs its handler before the loop condition is evaluated;
    - [assert] statements are executed (no [-O]);
    - the polling loops take fuel; a result [Spin] says that the fuel
      ran out, and the theorems on jobs that end give the fuel that is
      enough for a predictor that stops. *)

From stdpp Require Import base list strings.
From Stdlib Require Import ZArith Lia DecimalString.

Local Open Scope string_scope.
Local Open Scope list_scope.

(** ** Python values *)

(** Exceptions (all of them subclasses of [Exception]). *)
Inductive Exn : Type :=
  | ValidationError (msg : string)
  | TimeoutError (msg : string)
  | AssertionError
  | KeyError (key : string)
  | TypeError (msg : string)
  | IndexError (msg : string)
  | OtherError (msg : string).

(** [str(e)]: the message; [str(AssertionError())] is empty and a
    [KeyError] prints the repr of its key. *)
Definition str (e : Exn) : string :=
  match e with
  | ValidationError msg => msg
  | TimeoutError msg => msg
  | AssertionError => EmptyString
  | KeyError key => "'" ++ key ++ "'"
  | TypeError msg => msg
  | IndexError msg => msg
  | OtherError msg => msg
  end.

(** What [json.loads] returns, and what [encode_json] produces. *)
#[local] Unset Elimination Schemes.
Inductive Json : Type :=
  | JNull
  | JBool (b : bool)
  | JNum (n : Z)
  | JStr (s : string)
  | JArr (items : list Json)
  | JObj (fields : list (string * Json)).
#[local] Set Elimination Schemes.

Fixpoint assoc {A : Type} (key : string) (fields : list (string * A)) : option A :=
  match fields with
  | [] => None
  | (k, v) :: rest => if String.eqb k key then Some v else assoc key rest
  end.

(** [message[key]] for a string key. *)
Definition getitem (message : Json) (key : string) : Exn + Json :=
  match message with
  | JObj fields =>
      match assoc key fields with
      | Some v => inr v
      | None => inl (KeyError key)
      end
  | JStr _ => inl (TypeError "string indices must be integers")
  | JArr _ => inl (TypeError "list indices must be integers or slices, not str")
  | _ => inl (TypeError "object is not subscriptable")
  end.

(** [**value]: the value must be a mapping. *)
Definition kwargs (value : Json) : Exn + list (string * Json) :=
  match value with
  | JObj fields => inr fields
  | _ => inl (TypeError "argument after ** must be a mapping")
  end.

(** [l[i]] on a Python list. *)
Definition index {A : Type} (l : list A) (i : nat) : Exn + A :=
  match nth_error l i with
  | Some x => inr x
  | None => inl (IndexError "list index out of range")
  end.

(** [str(n)] for an integer. *)
Definition str_int (n : Z) : string := NilZero.string_of_int (Z.to_int n).

(** ** Status frames *)

Inductive Status : Type := PROCESSING | SUCCEEDED | FAILED.

(** The ["output"] entry of the response: [None], one encoded value
    (scalar mode) or the list of the values encoded so far (generator
    mode). *)
Inductive Output : Type :=
  | ONone
  | OValue (v : Json)
  | OList (vs : list Json).

(** The [response] dictionary of [handle_message].  The ["error"] key
    exists only once a failure was recorded. *)
Record Response : Type := mkResponse {
  status : Status;
  output : Output;
  logs : list string;
  error : option string
}.

(** What is pushed to a reply channel: [json.dumps(response)] in
    [handle_message], or the two-key dictionary
    [{"status": "failed", "error": str(error)}] of [push_error]. *)
Inductive Frame : Type :=
  | ResponseFrame (response : Response)
  | ErrorFrame (error : string).

Definition frame_status (f : Frame) : Status :=
  match f with
  | ResponseFrame r => status r
  | ErrorFrame _ => FAILED
  end.

(** The ["logs"] entry of a frame, when the frame has one. *)
Definition frame_logs (f : Frame) : option (list string) :=
  match f with
  | ResponseFrame r => Some (logs r)
  | ErrorFrame _ => None
  end.

Definition frame_error (f : Frame) : option string :=
  match f with
  | ResponseFrame r => error r
  | ErrorFrame e => Some e
  end.

Definition is_terminal_status (st : Status) : bool :=
  match st with
  | PROCESSING => false
  | SUCCEEDED | FAILED => true
  end.

Definition is_terminal (f : Frame) : bool := is_terminal_status (frame_status f).

(** ** The [timeout] context manager: construction *)

Record timeout : Type := mkTimeout {
  seconds : option Z;
  error_message : string
}.

Definition timeout_init (seconds elapsed : option Z) (error_message : string) : timeout :=
  match elapsed, seconds with
  | Some e, Some s => mkTimeout (Some (s - e)%Z) error_message
  | _, _ => mkTimeout seconds error_message
  end.

Definition default_error_message : string := "Prediction timed out".

(** ** The worker object *)

(** The arguments of [RedisQueueWorker.__init__] besides the predictor. *)
Record Args : Type := mkArgs {
  arg_redis_host : string;
  arg_redis_port : Z;
  arg_input_queue : string;
  arg_upload_url : string;
  arg_consumer_id : string;
  arg_model_id : option string;
  arg_log_queue : option string;
  arg_predict_timeout : option Z;
  arg_redis_db : Z
}.

(** The attributes that [__init__] sets and that no method assigns
    afterwards.  ([should_exit] and the runner are mutable: they are in
    the machine state below.) *)
Record RedisQueueWorker : Type := mkWorker {
  redis_host : string;
  redis_port : Z;
  input_queue : string;
  upload_url : string;
  consumer_id : string;
  model_id : option string;
  log_queue : option string;
  predict_timeout : option Z;
  redis_db : Z;
  max_processing_time : Z;
  setup_time_queue : string;
  predict_time_queue : string;
  stats_queue_length : Z
}.

Definition SETUP_TIME_QUEUE_SUFFIX : string := "-setup-time".
Definition RUN_TIME_QUEUE_SUFFIX : string := "-run-time".

Definition init (a : Args) : RedisQueueWorker :=
  {| redis_host := arg_redis_host a;
     redis_port := arg_redis_port a;
     input_queue := arg_input_queue a;
     upload_url := arg_upload_url a;
     consumer_id := arg_consumer_id a;
     model_id := arg_model_id a;
     log_queue := arg_log_queue a;
     predict_timeout := arg_predict_timeout a;
     redis_db := arg_redis_db a;
     max_processing_time := (10 * 60)%Z;
     setup_time_queue := arg_input_queue a ++ SETUP_TIME_QUEUE_SUFFIX;
     predict_time_queue := arg_input_queue a ++ RUN_TIME_QUEUE_SUFFIX;
     stats_queue_length := 100%Z |}.

(** The same arguments with another [model_id]. *)
Definition with_model_id (a : Args) (m : option string) : Args :=
  {| arg_redis_host := arg_redis_host a;
     arg_redis_port := arg_redis_port a;
     arg_input_queue := arg_input_queue a;
     arg_upload_url := arg_upload_url a;
     arg_consumer_id := arg_consumer_id a;
     arg_model_id := m;
     arg_log_queue := arg_log_queue a;
     arg_predict_timeout := arg_predict_timeout a;
     arg_redis_db := arg_redis_db a |}.

(** ** Replies of the stream service *)

(** The reply to XAUTOCLAIM in the format the source documents:
    [[[b'1619393873567-0', [b'mykey', b'myval']]]], entries possibly
    [None]. *)
Definition AutoclaimReply : Type := list (option (string * list string)).

(** The reply of [xreadgroup]:
    [[[b'mystream', [(b'1619395583065-0', {b'mykey': b'myval6'})]]]]. *)
Definition ReadgroupReply : Type :=
  list (string * list (string * list (string * string))).

(** ** The collaborators *)

(** The prediction runner: [R] is its state, [I] the type of validated
    input objects, [V] the type of the values the predictor outputs.
    [error] returns the string form of the error object, if any. *)
Class PredictionRunner (R I V : Type) : Type := {
  setup : R -> (Exn + unit) * R;
  run : I -> R -> (Exn + unit) * R;
  is_processing : R -> (Exn + bool) * R;
  has_logs_waiting : R -> (Exn + bool) * R;
  read_logs : R -> (Exn + list string) * R;
  has_output_waiting : R -> (Exn + bool) * R;
  read_output : R -> (Exn + list V) * R;
  is_output_generator : R -> (Exn + bool) * R;
  runner_error : R -> (Exn + option string) * R
}.

(** The library and helper functions the worker calls: [json.loads],
    [bytes.decode], the input type built by [get_input_type], the
    [cleanup] method of an input object ([Some e] when calling it raises
    [e]), [encode_json] with its upload URL, and the readings of
    [time.time()] in the order they are taken. *)
Class Helpers (I V : Type) : Type := {
  json_loads : string -> Exn + Json;
  decode : string -> Exn + string;
  InputType : list (string * Json) -> Exn + I;
  cleanup : I -> option Exn;
  encode_json : string -> V -> Exn + Json;
  clock : nat -> Z
}.

(** [str(x)] where [x] is the result of [runner.error()]. *)
Definition str_error (x : option string) : string :=
  match x with
  | Some e => e
  | None => "None"
  end.

(** ** Events, machine state and the monad of the worker *)

(** How a computation ends: it returns, it raises, or the polling
    budget of the model ran out while a loop was still going. *)
Inductive Res (A : Type) : Type :=
  | Ok (a : A)
  | Raise (e : Exn)
  | Spin.
Arguments Ok {A} a.
Arguments Raise {A} e.
Arguments Spin {A}.

Section Machine.

Context {R I V : Type}.

(** Calls of the runner that returned, with what they returned. *)
Inductive Call : Type :=
  | CSetup
  | CRun (input_obj : I)
  | CIsProcessing (b : bool)
  | CHasLogsWaiting (b : bool)
  | CReadLogs (lines : list string)
  | CHasOutputWaiting (b : bool)
  | CReadOutput (values : list V)
  | CIsOutputGenerator (b : bool)
  | CError (err : option string).

(** What the worker writes to [sys.stderr]. *)
Inductive LogLine : Type :=
  | ConnectedToRedis (host : string) (port db : Z)
  | CaughtSigterm
  | SetupTime (t : Z)
  | WaitingForMessage (queue : string)
  | ReceivedMessage (queue : string)
  | RunTime (t : Z)
  | CleanupError (e : Exn)
  | FailedToHandle (e : Exn)
  | Traceback (e : Exn)
  | PushingError (queue : Json).

Inductive Signal : Type := SIGTERM | SIGALRM.

(** Everything the worker does to the outside, in the order it does
    it. *)
Inductive Event : Type :=
  | Stderr (line : LogLine)
  | SignalSignal (sig : Signal)
  | SignalAlarm (secs : Z)
  | Xautoclaim (stream group consumer min_idle_time start : string) (count : Z)
  | Xreadgroup (groupname consumername stream id : string) (count block : Z)
  | Xack (stream group id : string)
  | Xdel (stream id : string)
  | Xadd (stream : string) (duration maxlen : Z)
  | Rpush (key : Json) (value : Frame)
  | Runner (c : Call)
  | RunnerRaised (e : Exn)
  | CleanupCalled (input_obj : I).

(** The mutable part: the runner, the [should_exit] flag, the list
    object [cleanup_functions] that [start] creates and hands to
    [handle_message] (both see the same list), the number of clock
    readings taken, and the script of the environment: the replies the
    stream service will give, and for each evaluation of the loop
    condition whether SIGTERM arrived before it. *)
Record State : Type := mkState {
  runner : R;
  should_exit : bool;
  cleanup_functions : list I;
  clock_reads : nat;
  autoclaim_replies : list AutoclaimReply;
  readgroup_replies : list ReadgroupReply;
  sigterm : list bool
}.

Definition set_runner (r : R) (s : State) : State :=
  mkState r (should_exit s) (cleanup_functions s) (clock_reads s)
          (autoclaim_replies s) (readgroup_replies s) (sigterm s).
Definition set_should_exit (b : bool) (s : State) : State :=
  mkState (runner s) b (cleanup_functions s) (clock_reads s)
          (autoclaim_replies s) (readgroup_replies s) (sigterm s).
Definition set_cleanup_functions (l : list I) (s : State) : State :=
  mkState (runner s) (should_exit s) l (clock_reads s)
          (autoclaim_replies s) (readgroup_replies s) (sigterm s).
Definition set_clock_reads (n : nat) (s : State) : State :=
  mkState (runner s) (should_exit s) (cleanup_functions s) n
          (autoclaim_replies s) (readgroup_replies s) (sigterm s).
Definition set_autoclaim_replies (l : list AutoclaimReply) (s : State) : State :=
  mkState (runner s) (should_exit s) (cleanup_functions s) (clock_reads s)
          l (readgroup_replies s) (sigterm s).
Definition set_readgroup_replies (l : list ReadgroupReply) (s : State) : State :=
  mkState (runner s) (should_exit s) (cleanup_functions s) (clock_reads s)
          (autoclaim_replies s) l (sigterm s).
Definition set_sigterm (l : list bool) (s : State) : State :=
  mkState (runner s) (should_exit s) (cleanup_functions s) (clock_reads s)
          (autoclaim_replies s) (readgroup_replies s) l.

(** A computation: from a state to its end, the state then, and the
    events it produced. *)
Definition M (A : Type) : Type := State -> Res A * State * list Event.

Definition ret {A : Type} (a : A) : M A := fun s => (Ok a, s, []).
Definition raise {A : Type} (e : Exn) : M A := fun s => (Raise e, s, []).
Definition spin {A : Type} : M A := fun s => (Spin, s, []).

Definition bind {A B : Type} (m : M A) (k : A -> M B) : M B := fun s =>
  match m s with
  | (Ok a, s1, o1) => let '(r, s2, o2) := k a s1 in (r, s2, o1 ++ o2)
  | (Raise e, s1, o1) => (Raise e, s1, o1)
  | (Spin, s1, o1) => (Spin, s1, o1)
  end.

(** [try: m except Exception as e: h e]. *)
Definition try_except {A : Type} (m : M A) (h : Exn -> M A) : M A := fun s =>
  match m s with
  | (Raise e, s1, o1) => let '(r, s2, o2) := h e s1 in (r, s2, o1 ++ o2)
  | other => other
  end.

(** [try: m finally: f]: [f] runs when [m] returned or raised; what
    [f] raises replaces the outcome of [m]. *)
Definition try_finally {A : Type} (m : M A) (f : M unit) : M A := fun s =>
  match m s with
  | (Spin, s1, o1) => (Spin, s1, o1)
  | (r, s1, o1) =>
      match f s1 with
      | (Ok _, s2, o2) => (r, s2, o1 ++ o2)
      | (Raise e, s2, o2) => (Raise e, s2, o1 ++ o2)
      | (Spin, s2, o2) => (Spin, s2, o1 ++ o2)
      end
  end.

Definition emit (es : list Event) : M unit := fun s => (Ok tt, s, es).

(** A value or exception computed without effect. *)
Definition lift {A : Type} (x : Exn + A) : M A :=
  match x with
  | inl e => raise e
  | inr a => ret a
  end.

Definition assert (b : bool) : M unit :=
  if b then ret tt else raise AssertionError.

End Machine.

Notation "x <- m ;; k" := (bind m (fun x => k))
  (at level 62, m at next level, right associativity).
Notation "m ;;; k" := (bind m (fun _ => k))
  (at level 62, right associativity).

(** ** The operations of the worker *)

Section Operations.

Context {R I V : Type} `{!PredictionRunner R I V} `{!Helpers I V}.

Abbreviation M := (@M R I V).

(** *** The collaborators, as computations *)

(** A call of the runner: the runner moves to its next state; the call
    returns or raises. *)
Definition call {A : Type} (op : R -> (Exn + A) * R) (ev : A -> Call) : M A := fun s =>
  match op (runner s) with
  | (inr a, r) => (Ok a, set_runner r s, [Runner (ev a)])
  | (inl e, r) => (Raise e, set_runner r s, [RunnerRaised e])
  end.

Definition stderr_write (line : LogLine) : M unit := emit [Stderr line].

(** [time.time()]. *)
Definition time : M Z := fun s =>
  (Ok (clock (clock_reads s)), set_clock_reads (S (clock_reads s)) s, []).

(** [redis.execute_command("XAUTOCLAIM", ...)]: the next scripted reply,
    or the empty reply when the script is over. *)
Definition execute_xautoclaim (stream group consumer min_idle_time start : string)
    (count : Z) : M AutoclaimReply := fun s =>
  match autoclaim_replies s with
  | [] => (Ok [], s, [Xautoclaim stream group consumer min_idle_time start count])
  | reply :: rest =>
      (Ok reply, set_autoclaim_replies rest s,
       [Xautoclaim stream group consumer min_idle_time start count])
  end.

(** [redis.xreadgroup(...)] for one stream. *)
Definition xreadgroup (groupname consumername stream id : string)
    (count block : Z) : M ReadgroupReply := fun s =>
  match readgroup_replies s with
  | [] => (Ok [], s, [Xreadgroup groupname consumername stream id count block])
  | reply :: rest =>
      (Ok reply, set_readgroup_replies rest s,
       [Xreadgroup groupname consumername stream id count block])
  end.

Definition xack (stream group id : string) : M unit := emit [Xack stream group id].
Definition xdel (stream id : string) : M unit := emit [Xdel stream id].
Definition xadd (stream : string) (duration maxlen : Z) : M unit :=
  emit [Xadd stream duration maxlen].
Definition rpush (key : Json) (value : Frame) : M unit := emit [Rpush key value].

(** *** [class timeout] *)

Definition handle_timeout {A : Type} (t : timeout) : M A :=
  raise (TimeoutError (error_message t)).

Definition timeout_enter (t : timeout) : M unit :=
  match seconds t with
  | Some secs =>
      if (secs <=? 0)%Z then handle_timeout t
      else emit [SignalSignal SIGALRM; SignalAlarm secs]
  | None => ret tt
  end.

Definition timeout_exit (t : timeout) : M unit :=
  match seconds t with
  | Some _ => emit [SignalAlarm 0]
  | None => ret tt
  end.

(** [with t: body].  [__exit__] returns [None], so an exception of the
    body goes on after it; when [__enter__] raises, neither the body nor
    [__exit__] runs. *)
Definition with_timeout {A : Type} (t : timeout) (body : M A) : M A :=
  timeout_enter t ;;; try_finally body (timeout_exit t).

(** *** [class RedisQueueWorker] *)

Variable self : RedisQueueWorker.

Definition signal_exit : M unit := fun s =>
  (Ok tt, set_should_exit true s, [Stderr CaughtSigterm]).

(** The result is [None, None] or a pair of two strings: an option of
    a pair. *)
Definition receive_message : M (option (string * string)) :=
  raw_messages <- execute_xautoclaim (input_queue self) (input_queue self)
                    (consumer_id self)
                    (str_int (max_processing_time self * 1000)) "0-0" 1 ;;
  match raw_messages with
  | Some (key, raw_message) :: _ =>
      field <- lift (index raw_message 0) ;;
      assert (String.eqb field "value") ;;;
      key' <- lift (decode key) ;;
      value <- lift (index raw_message 1) ;;
      value' <- lift (decode value) ;;
      ret (Some (key', value'))
  | _ =>
      raw_messages <- xreadgroup (input_queue self) (consumer_id self)
                        (input_queue self) ">" 1 1000 ;;
      match raw_messages with
      | [] => ret None
      | (_, entries) :: _ =>
          entry <- lift (index entries 0) ;;
          let '(key, raw_message) := entry in
          key' <- lift (decode key) ;;
          value <- lift (match assoc "value" raw_message with
                         | Some v => inr v
                         | None => inl (KeyError "value")
                         end) ;;
          value' <- lift (decode value) ;;
          ret (Some (key', value'))
      end
  end.

Definition push_error (response_queue : Json) (error : Exn) : M unit :=
  let message := ErrorFrame (str error) in
  stderr_write (PushingError response_queue) ;;;
  rpush response_queue message.

(** [[self.encode_json(o) for o in values]]. *)
Fixpoint encode_all (values : list V) : M (list Json) :=
  match values with
  | [] => ret []
  | o :: rest =>
      e <- lift (encode_json (upload_url self) o) ;;
      es <- encode_all rest ;;
      ret (e :: es)
  end.

(** The three places where [handle_message] reports the error of the
    runner: [response["status"] = FAILED], [response["error"] =
    str(self.runner.error())] (a second call of [error]), push,
    return. *)
Definition push_failed (response_queue : Json) (output : Output)
    (logs : list string) : M unit :=
  err <- call runner_error CError ;;
  rpush response_queue (ResponseFrame (mkResponse FAILED output logs (Some (str_error err)))).

(** Lines 221-224: just send logs until output starts.  [logs] is the
    list that [response["logs"]] refers to: every push sees what was
    appended so far.  The result is the list when the loop ends. *)
Fixpoint logs_until_output (fuel : nat) (response_queue : Json)
    (logs : list string) : M (list string) :=
  match fuel with
  | 0 => spin
  | S fuel' =>
      p <- call is_processing CIsProcessing ;;
      if p then
        w <- call has_output_waiting CHasOutputWaiting ;;
        if w then ret logs
        else
          l <- call has_logs_waiting CHasLogsWaiting ;;
          if l then
            new_logs <- call read_logs CReadLogs ;;
            let logs := logs ++ new_logs in
            rpush response_queue (ResponseFrame (mkResponse PROCESSING ONone logs None)) ;;;
            logs_until_output fuel' response_queue logs
          else logs_until_output fuel' response_queue logs
      else ret logs
  end.

(** Lines 235-256: the streaming loop of generator mode. *)
Fixpoint stream_output (fuel : nat) (response_queue : Json)
    (output : list Json) (logs : list string) : M (list Json * list string) :=
  match fuel with
  | 0 => spin
  | S fuel' =>
      p <- call is_processing CIsProcessing ;;
      if p then
        w <- call has_output_waiting CHasOutputWaiting ;;
        ready <- (if w then ret true else call has_logs_waiting CHasLogsWaiting) ;;
        if ready then
          values <- call read_output CReadOutput ;;
          new_output <- encode_all values ;;
          new_logs <- call read_logs CReadLogs ;;
          match new_output, new_logs with
          | [], [] => stream_output fuel' response_queue output logs
          | _, _ =>
              let output := output ++ new_output in
              let logs := logs ++ new_logs in
              rpush response_queue
                (ResponseFrame (mkResponse PROCESSING (OList output) logs None)) ;;;
              stream_output fuel' response_queue output logs
          end
        else stream_output fuel' response_queue output logs
      else ret (output, logs)
  end.

(** Lines 271-274: just send logs until output ends. *)
Fixpoint logs_until_done (fuel : nat) (response_queue : Json)
    (logs : list string) : M (list string) :=
  match fuel with
  | 0 => spin
  | S fuel' =>
      p <- call is_processing CIsProcessing ;;
      if p then
        l <- call has_logs_waiting CHasLogsWaiting ;;
        if l then
          new_logs <- call read_logs CReadLogs ;;
          let logs := logs ++ new_logs in
          rpush response_queue (ResponseFrame (mkResponse PROCESSING ONone logs None)) ;;;
          logs_until_done fuel' response_queue logs
        else logs_until_done fuel' response_queue logs
      else ret logs
  end.

(** Lines 232-267: generator mode, after the first loop. *)
Definition generator_mode (fuel : nat) (response_queue : Json)
    (logs : list string) : M unit :=
  ol <- stream_output fuel response_queue [] logs ;;
  let '(output, logs) := ol in
  e <- call runner_error CError ;;
  match e with
  | Some _ => push_failed response_queue (OList output) logs
  | None =>
      values <- call read_output CReadOutput ;;
      new_output <- encode_all values ;;
      let output := output ++ new_output in
      new_logs <- call read_logs CReadLogs ;;
      let logs := logs ++ new_logs in
      rpush response_queue (ResponseFrame (mkResponse SUCCEEDED (OList output) logs None))
  end.

(** Lines 269-288: scalar mode, after the first loop. *)
Definition scalar_mode (fuel : nat) (response_queue : Json)
    (logs : list string) : M unit :=
  logs <- logs_until_done fuel response_queue logs ;;
  e <- call runner_error CError ;;
  match e with
  | Some _ => push_failed response_queue ONone logs
  | None =>
      output <- call read_output CReadOutput ;;
      assert (Nat.eqb (length output) 1) ;;;
      o <- lift (index output 0) ;;
      encoded <- lift (encode_json (upload_url self) o) ;;
      new_logs <- call read_logs CReadLogs ;;
      let logs := logs ++ new_logs in
      rpush response_queue (ResponseFrame (mkResponse SUCCEEDED (OValue encoded) logs None))
  end.

(** Lines 211-288: the body of the [with timeout(...)] block. *)
Definition predict (fuel : nat) (response_queue : Json) (input_obj : I) : M unit :=
  call (run input_obj) (fun _ => CRun input_obj) ;;;
  logs <- logs_until_output fuel response_queue [] ;;
  e <- call runner_error CError ;;
  match e with
  | Some _ => push_failed response_queue ONone logs
  | None =>
      g <- call is_output_generator CIsOutputGenerator ;;
      if g then generator_mode fuel response_queue logs
      else scalar_mode fuel response_queue logs
  end.

(** [try: m except ValidationError as e: h e]. *)
Definition try_except_ValidationError {A : Type} (m : M A) (h : Exn -> M A) : M A := fun s =>
  match m s with
  | (Raise (ValidationError msg), s1, o1) =>
      let '(r, s2, o2) := h (ValidationError msg) s1 in (r, s2, o1 ++ o2)
  | other => other
  end.

Definition handle_message (fuel : nat) (response_queue : Json) (message : Json) : M unit :=
  validated <- try_except_ValidationError
      (input <- lift (getitem message "input") ;;
       arguments <- lift (kwargs input) ;;
       input_obj <- lift (InputType arguments) ;;
       ret (Some input_obj))
      (fun e =>
         stderr_write (Traceback e) ;;;
         push_error response_queue e ;;;
         ret None) ;;
  match validated with
  | None => ret tt
  | Some input_obj =>
      (fun s => (Ok tt, set_cleanup_functions (cleanup_functions s ++ [input_obj]) s, [])) ;;;
      start_time <- time ;;
      with_timeout (timeout_init (predict_timeout self) None default_error_message)
        (predict fuel response_queue input_obj)
  end.

(** Lines 183-187: every cleanup function is called; what one raises is
    written to stderr. *)
Fixpoint run_cleanup_functions (functions : list I) : M unit :=
  match functions with
  | [] => ret tt
  | input_obj :: rest =>
      try_except
        (emit [CleanupCalled input_obj] ;;;
         match cleanup input_obj with
         | Some e => raise e
         | None => ret tt
         end)
        (fun e => stderr_write (CleanupError e)) ;;;
      run_cleanup_functions rest
  end.

(** Lines 160-187: what one iteration does with a message it received. *)
Definition process_message (fuel : nat) (message_id message_json : string) : M unit :=
  message <- lift (json_loads message_json) ;;
  response_queue <- lift (getitem message "response_queue") ;;
  stderr_write (ReceivedMessage (input_queue self)) ;;;
  (fun s => (Ok tt, set_cleanup_functions [] s, [])) ;;;
  try_finally
    (try_except
       (start_time <- time ;;
        handle_message fuel response_queue message ;;;
        xack (input_queue self) (input_queue self) message_id ;;;
        xdel (input_queue self) message_id ;;;
        now <- time ;;
        let run_time := (now - start_time)%Z in
        xadd (predict_time_queue self) run_time (stats_queue_length self) ;;;
        stderr_write (RunTime run_time))
       (fun e =>
          push_error response_queue e ;;;
          xack (input_queue self) (input_queue self) message_id ;;;
          xdel (input_queue self) message_id))
    (fun s => run_cleanup_functions (cleanup_functions s) s).

(** Lines 154-190: the body of the [while] loop. *)
Definition loop_body (fuel : nat) : M unit :=
  try_except
    (received <- receive_message ;;
     match received with
     | None => ret tt
     | Some (message_id, message_json) => process_message fuel message_id message_json
     end)
    (fun e => stderr_write (FailedToHandle e)).

(** SIGTERM, if the script says it arrived, runs its handler before the
    loop condition is evaluated. *)
Definition deliver_sigterm : M unit := fun s =>
  match sigterm s with
  | [] => (Ok tt, s, [])
  | arrived :: rest =>
      if arrived then signal_exit (set_sigterm rest s)
      else (Ok tt, set_sigterm rest s, [])
  end.

(** [while not self.should_exit: ...], for at most [iterations]
    iterations. *)
Fixpoint worker_loop (iterations fuel : nat) : M unit :=
  match iterations with
  | 0 => spin
  | S iterations' =>
      deliver_sigterm ;;;
      exit <- (fun s => (Ok (should_exit s), s, [])) ;;
      if exit then ret tt
      else loop_body fuel ;;; worker_loop iterations' fuel
  end.

Definition start (iterations fuel : nat) : M unit :=
  emit [SignalSignal SIGTERM] ;;;
  start_time <- time ;;
  call setup (fun _ => CSetup) ;;;
  now <- time ;;
  let setup_time := (now - start_time)%Z in
  xadd (setup_time_queue self) setup_time (stats_queue_length self) ;;;
  stderr_write (SetupTime setup_time) ;;;
  stderr_write (WaitingForMessage (input_queue self)) ;;;
  worker_loop iterations fuel.

End Operations.

(** ** A scripted predictor

    A concrete runner to run the worker on: every poll of
    [is_processing] consumes one step of a script, and the logs and
    outputs of that step become available.  Outputs are strings, input
    objects are the number of the field [sleep_time]. *)

Module Scripted.

Record Predictor : Type := mkPredictor {
  steps : list (list string * list string);
  waiting_logs : list string;
  waiting_output : list string;
  failure : option string;
  generator : bool
}.

Definition nonempty {A : Type} (l : list A) : bool :=
  match l with
  | [] => false
  | _ :: _ => true
  end.

#[export] Instance runner_ops : PredictionRunner Predictor Z string := {|
  setup r := (inr tt, r);
  run _ r := (inr tt, r);
  is_processing r :=
    match steps r with
    | [] => (inr false, r)
    | (l, o) :: rest =>
        (inr true,
         mkPredictor rest (waiting_logs r ++ l) (waiting_output r ++ o)
                  (failure r) (generator r))
    end;
  has_logs_waiting r := (inr (nonempty (waiting_logs r)), r);
  read_logs r :=
    (inr (waiting_logs r),
     mkPredictor (steps r) [] (waiting_output r) (failure r) (generator r));
  has_output_waiting r := (inr (nonempty (waiting_output r)), r);
  read_output r :=
    (inr (waiting_output r),
     mkPredictor (steps r) (waiting_logs r) [] (failure r) (generator r));
  is_output_generator r := (inr (generator r), r);
  runner_error r := (inr (failure r), r)
|}.

(** The number of polls the script still answers with "processing". *)
Definition rank (r : Predictor) : nat := length (steps r).

(** Three payloads parse (written here with single quotes): a job for
    the reply channel ["reply"] with a valid and with an invalid input,
    and a job without reply channel; everything else is not JSON. *)
Definition good_payload : string := "{'response_queue': 'reply', 'input': {'sleep_time': 0}}".
Definition bad_input_payload : string := "{'response_queue': 'reply', 'input': {'sleep_time': 'x'}}".
Definition no_queue_payload : string := "{'input': {'sleep_time': 0}}".

Definition good_message : Json :=
  JObj [("response_queue", JStr "reply"); ("input", JObj [("sleep_time", JNum 0)])].
Definition bad_input_message : Json :=
  JObj [("response_queue", JStr "reply"); ("input", JObj [("sleep_time", JStr "x")])].
Definition no_queue_message : Json :=
  JObj [("input", JObj [("sleep_time", JNum 0)])].

#[export] Instance helpers : Helpers Z string := {|
  json_loads s :=
    if String.eqb s good_payload then inr good_message
    else if String.eqb s bad_input_payload then inr bad_input_message
    else if String.eqb s no_queue_payload then inr no_queue_message
    else inl (OtherError "Expecting value");
  decode s := inr s;
  InputType arguments :=
    match arguments with
    | [(name, JNum n)] =>
        if String.eqb name "sleep_time" then inr n
        else inl (ValidationError "extra fields not permitted")
    | _ => inl (ValidationError "value is not a valid float")
    end;
  cleanup _ := None;
  encode_json _ v := inr (JStr v);
  clock n := Z.of_nat n
|}.

Definition args (predict_timeout : option Z) : Args :=
  mkArgs "localhost" 6379 "queue" "http://upload" "worker-1" None None predict_timeout 0.

Definition idle (r : Predictor) : @State Predictor Z :=
  mkState r false [] 0 [] [] [].

(** A scalar predictor that logs one line and then outputs nothing. *)
Definition silent : Predictor := mkPredictor [(["line"], [])] [] [] None false.

(** A scalar predictor that returns ["it worked!"] at once. *)
Definition worked : Predictor := mkPredictor [] [] ["it worked!"] None false.

(** A generator that yields three values with a log line each. *)
Definition abc : Predictor :=
  mkPredictor [(["1"], ["a"]); (["2"], ["b"]); (["3"], ["c"])] [] [] None true.

(** A state in which the stream service hands over the pending entry
    ["1-0"] with the given fields. *)
Definition reclaiming (fields : list string) : @State Predictor Z :=
  mkState worked false [] 0 [[Some ("1-0", fields)]] [] [].

(** A payload with a reply channel and no input, and helpers that
    parse it besides the three above. *)
Definition no_input_payload : string := "{'response_queue': 'reply'}".
Definition no_input_message : Json := JObj [("response_queue", JStr "reply")].

Definition more_helpers : Helpers Z string := {|
  json_loads s :=
    if String.eqb s no_input_payload then inr no_input_message
    else @json_loads Z string helpers s;
  decode := @decode Z string helpers;
  InputType := @InputType Z string helpers;
  cleanup := @cleanup Z string helpers;
  encode_json := @encode_json Z string helpers;
  clock := @clock Z string helpers
|}.

(** The scripted predictor behind a runner whose [setup] fails. *)
Definition unready : PredictionRunner Predictor Z string := {|
  setup r := (inl (OtherError "setup failed"), r);
  run := @run Predictor Z string runner_ops;
  is_processing := @is_processing Predictor Z string runner_ops;
  has_logs_waiting := @has_logs_waiting Predictor Z string runner_ops;
  read_logs := @read_logs Predictor Z string runner_ops;
  has_output_waiting := @has_output_waiting Predictor Z string runner_ops;
  read_output := @read_output Predictor Z string runner_ops;
  is_output_generator := @is_output_generator Predictor Z string runner_ops;
  runner_error := @runner_error Predictor Z string runner_ops
|}.

(** [int] on the two numerals of the command line used below. *)
Definition int_of (s : string) : Exn + Z :=
  if String.eqb s "6379" then inr 6379%Z
  else if String.eqb s "30" then inr 30%Z
  else inl (OtherError "invalid literal for int() with base 10").

(** A state in which the stream service has one new entry. *)
Definition fresh (fields : list (string * string)) (sigterm : list bool)
    : @State Predictor Z :=
  mkState worked false [] 0 [] [[("queue", [("2-0", fields)])]] sigterm.

End Scripted.

(** ** Reading a trace *)

Section Traces.

Context {I V : Type}.

Abbreviation Event := (@Event I V).

(** The frames pushed, in order. *)
Fixpoint pushed (out : list Event) : list Frame :=
  match out with
  | [] => []
  | Rpush _ value :: rest => value :: pushed rest
  | _ :: rest => pushed rest
  end.

(** The reply channels written to. *)
Fixpoint channels (out : list Event) : list Json :=
  match out with
  | [] => []
  | Rpush key _ :: rest => key :: channels rest
  | _ :: rest => channels rest
  end.

(** The commands sent to the stream service, in order. *)
Definition is_command (e : Event) : bool :=
  match e with
  | Xautoclaim _ _ _ _ _ _ | Xreadgroup _ _ _ _ _ _ | Xack _ _ _ | Xdel _ _
  | Xadd _ _ _ | Rpush _ _ => true
  | _ => false
  end.

Definition commands (out : list Event) : list Event := List.filter is_command out.

(** The entries appended to the stream [name]. *)
Fixpoint appended (name : string) (out : list Event) : list Z :=
  match out with
  | [] => []
  | Xadd stream duration _ :: rest =>
      if String.eqb stream name then duration :: appended name rest
      else appended name rest
  | _ :: rest => appended name rest
  end.

(** The messages acked. *)
Fixpoint acked (out : list Event) : list string :=
  match out with
  | [] => []
  | Xack _ _ id :: rest => id :: acked rest
  | _ :: rest => acked rest
  end.


(** Events of a polling loop that only forwards logs. *)
Definition poll_event (q : Json) (e : Event) : Prop :=
  match e with
  | Rpush key _ => key = q
  | Runner (CIsProcessing _) | Runner (CHasLogsWaiting _)
  | Runner (CHasOutputWaiting _) | Runner (CReadLogs _) => True
  | RunnerRaised _ => True
  | _ => False
  end.

(** Events of the streaming loop: it reads outputs too. *)
Definition stream_event (q : Json) (e : Event) : Prop :=
  match e with
  | Runner (CReadOutput _) => True
  | _ => poll_event q e
  end.

(** Events of one mode of [handle_message] after the first loop: the
    error of the runner is read too. *)
Definition mode_event (q : Json) (e : Event) : Prop :=
  match e with
  | Runner (CError _) => True
  | _ => stream_event q e
  end.

(** Events of [handle_message]: pushes to the reply channel of the job,
    calls of the runner, stderr and the alarm. *)
Definition driver_event (q : Json) (e : Event) : Prop :=
  match e with
  | Rpush key _ => key = q
  | Runner _ | RunnerRaised _ | Stderr _ | SignalSignal _ | SignalAlarm _ => True
  | _ => False
  end.

(** [chain l frames l']: the frames are [processing] frames of
    [handle_message] whose logs start from an extension of [l], each
    extend the one before, and all are prefixes of [l']. *)
Inductive chain : list string -> list Frame -> list string -> Prop :=
  | chain_nil l l' : l `prefix_of` l' -> chain l [] l'
  | chain_cons l r frames l' :
      status r = PROCESSING -> l `prefix_of` logs r ->
      chain (logs r) frames l' -> chain l (ResponseFrame r :: frames) l'.



(** The events that show an error of the job: a call of the runner
    raised, the runner reported an error, or the worker wrote a
    validation traceback or announced an error frame. *)
Definition error_event (e : Event) : bool :=
  match e with
  | Runner (CError (Some _)) | RunnerRaised _ | Stderr (Traceback _)
  | Stderr (PushingError _) => true
  | _ => false
  end.

Definition clean (e : Event) : Prop := error_event e = false.

(** The events of the cleanup at the end of an iteration. *)
Definition cleanup_event (e : Event) : Prop :=
  match e with
  | CleanupCalled _ | Stderr (CleanupError _) => True
  | _ => False
  end.

(** Events that are neither a command to the stream service nor a call
    of the runner. *)
Definition local_event (e : Event) : Prop :=
  match e with
  | Stderr _ | SignalSignal _ | SignalAlarm _ | CleanupCalled _ => True
  | _ => False
  end.

End Traces.

(** ** Predictors that stop

    [rank r] bounds the number of polls that the runner in state [r]
    still answers with "processing": no poll raises it, and a poll
    answered "processing" lowers it.  ([setup] and [run] are free: a
    new job may take any number of polls.) *)

Class PollsBounded {R I V : Type} `{!PredictionRunner R I V} (rank : R -> nat) : Prop := {
  rank_processing : forall r r', is_processing r = (inr true, r') -> rank r' < rank r;
  rank_is_processing : forall r, rank (is_processing r).2 <= rank r;
  rank_has_logs_waiting : forall r, rank (has_logs_waiting r).2 <= rank r;
  rank_read_logs : forall r, rank (read_logs r).2 <= rank r;
  rank_has_output_waiting : forall r, rank (has_output_waiting r).2 <= rank r;
  rank_read_output : forall r, rank (read_output r).2 <= rank r;
  rank_is_output_generator : forall r, rank (is_output_generator r).2 <= rank r;
  rank_runner_error : forall r, rank (runner_error r).2 <= rank r
}.

(** [encode_all] as a value: the encoder has no effect on the state of
    the model. *)
Fixpoint encode_values {I V : Type} `{!Helpers I V} (url : string) (values : list V)
    : Exn + list Json :=
  match values with
  | [] => inr []
  | o :: rest =>
      match encode_json url o with
      | inl e => inl e
      | inr j =>
          match encode_values url rest with
          | inl e => inl e
          | inr js => inr (j :: js)
          end
      end
  end.

(** ** Shapes of traces

    The predicates in which the lemmas on the parts of the worker are
    stated. *)

Section Shapes.

Context {R I V : Type} `{!Helpers I V}.

Abbreviation Ev := (@Event I V).
Abbreviation St := (@State R I).

(** What a loop that forwards logs leaves behind: events allowed by
    [P], none of them an error when the loop returns, and [processing]
    frames whose logs grow from [logs] to the list the loop returns. *)
Definition polled (P : Ev -> Prop) {A : Type} (final : A -> list string)
    (logs : list string) (x : Res A * St * list Ev) : Prop :=
  let '(r, s', out) := x in
  Forall P out /\
  match r with Ok _ => Forall clean out | _ => True end /\
  exists l', chain logs (pushed out) l' /\
    match r with Ok a => final a = l' | _ => True end.

(** How a frame ends a job whose logs so far are [l]: it is terminal,
    and its logs, when it has logs, extend [l]. *)
Definition ends (l : list string) (t : Frame) : Prop :=
  is_terminal t = true /\ forall lt, frame_logs t = Some lt -> l `prefix_of` lt.

(** What a part of [handle_message] that started with the logs [l0]
    leaves behind: events allowed by [P]; when it returns, [processing]
    frames and then one terminal frame, which is [succeeded] only after
    a trace without error; when it raises, [processing] frames only. *)
Definition driven (P : Ev -> Prop) (l0 : list string)
    (x : Res unit * St * list Ev) : Prop :=
  let '(r, s', out) := x in
  Forall P out /\
  match r with
  | Ok _ =>
      exists pre t l, pushed out = pre ++ [t] /\ chain l0 pre l /\ ends l t /\
        (frame_status t = SUCCEEDED -> Forall clean out)
  | _ => exists l, chain l0 (pushed out) l
  end.

(** How a part of [handle_message] ends when it has read the values
    [vs] in scalar mode. *)
Definition scalar_read (url : string) (vs : list V)
    (x : Res unit * St * list Ev) : Prop :=
  let '(r, _, out) := x in
  match r with
  | Ok _ =>
      exists v j l, vs = [v] /\ encode_json url v = inr j /\
        last (pushed out) = Some (ResponseFrame (mkResponse SUCCEEDED (OValue j) l None))
  | Raise e => length vs <> 1 -> e = AssertionError
  | Spin => False
  end.

(** The computation does not run out of fuel, and leaves a runner of
    rank at most [bound]. *)
Definition halts (rank : R -> nat) {A : Type} (bound : nat)
    (x : Res A * St * list Ev) : Prop :=
  let '(r, s', _) := x in r <> Spin /\ rank (runner s') <= bound.

(** The state in which an iteration calls [handle_message]. *)
Definition job_state (s : St) : St :=
  set_clock_reads (S (clock_reads s)) (set_cleanup_functions [] s).

(** What the iteration does next to [handle_message], before the
    timing entry and the cleanup. *)
Definition after_job (self : RedisQueueWorker) (q : Json) (message_id : string)
    (rh : Res unit) : list Ev :=
  match rh with
  | Ok _ =>
      [Xack (input_queue self) (input_queue self) message_id;
       Xdel (input_queue self) message_id]
  | Raise e =>
      [Stderr (PushingError q); Rpush q (ErrorFrame (str e));
       Xack (input_queue self) (input_queue self) message_id;
       Xdel (input_queue self) message_id]
  | Spin => []
  end.

(** The events of [receive_message]. *)
Definition receive_event (e : Ev) : Prop :=
  match e with
  | Xautoclaim _ _ _ _ _ _ | Xreadgroup _ _ _ _ _ _ => True
  | _ => False
  end.

(** The first reply of a script, the empty reply when it is over. *)
Definition next_reply {A : Type} (script : list (list A)) : list A :=
  match script with
  | [] => []
  | reply :: _ => reply
  end.

(** Does this reply to XAUTOCLAIM hand over an entry? *)
Definition reclaims (reply : AutoclaimReply) : bool :=
  match reply with
  | Some _ :: _ => true
  | _ => false
  end.


(** The second half of claim C5 as the specification states it: a job
    that ended with a terminal frame added one entry to the run-time
    stream. *)
Definition run_time_entry_per_completed_job (self : RedisQueueWorker)
    (out : list Ev) : Prop :=
  (exists t, last (pushed out) = Some t /\ is_terminal t = true) ->
  length (appended (predict_time_queue self) out) = 1.

End Shapes.

Arguments polled : simpl never.
Arguments driven : simpl never.
Arguments scalar_read : simpl never.
Arguments halts : simpl never.

(** ** Further readings of a trace *)

Section Readings.

Context {I V : Type} `{!Helpers I V}.

Abbreviation Event := (@Event I V).

(** The messages deleted. *)
Fixpoint deleted (out : list Event) : list string :=
  match out with
  | [] => []
  | Xdel _ id :: rest => id :: deleted rest
  | _ :: rest => deleted rest
  end.

(** The log lines that [read_logs] returned, in order. *)
Fixpoint lines_read (out : list Event) : list string :=
  match out with
  | [] => []
  | Runner (CReadLogs lines) :: rest => lines ++ lines_read rest
  | _ :: rest => lines_read rest
  end.

(** The values that [read_output] returned, in order. *)
Fixpoint values_read (out : list Event) : list V :=
  match out with
  | [] => []
  | Runner (CReadOutput values) :: rest => values ++ values_read rest
  | _ :: rest => values_read rest
  end.

(** The inputs with which [run] was called and returned. *)
Fixpoint runs (out : list Event) : list I :=
  match out with
  | [] => []
  | Runner (CRun input_obj) :: rest => input_obj :: runs rest
  | _ :: rest => runs rest
  end.

(** The number of calls of [setup] that returned. *)
Fixpoint setups (out : list Event) : nat :=
  match out with
  | [] => 0
  | Runner CSetup :: rest => S (setups rest)
  | _ :: rest => setups rest
  end.

(** The input objects whose [cleanup] was called. *)
Fixpoint cleaned (out : list Event) : list I :=
  match out with
  | [] => []
  | CleanupCalled input_obj :: rest => input_obj :: cleaned rest
  | _ :: rest => cleaned rest
  end.

(** The arguments of the calls of [signal.alarm]. *)
Fixpoint alarms (out : list Event) : list Z :=
  match out with
  | [] => []
  | SignalAlarm secs :: rest => secs :: alarms rest
  | _ :: rest => alarms rest
  end.



(** The events of [handle_message], more closely: it never calls
    [setup]. *)
Definition job_event (q : Json) (e : Event) : Prop :=
  match e with
  | Runner CSetup => False
  | _ => driver_event q e
  end.

(** An entry of a timing stream as the worker writes it: to the
    setup-time or the run-time stream of the worker, capped at
    [stats_queue_length]. *)
Definition capped (self : RedisQueueWorker) (e : Event) : Prop :=
  match e with
  | Xadd stream _ maxlen =>
      maxlen = stats_queue_length self /\
      (stream = setup_time_queue self \/ stream = predict_time_queue self)
  | _ => True
  end.

(** An ack or a delete as the worker sends it: on its input queue, the
    ack for the group of the same name. *)
Definition on_input_queue (self : RedisQueueWorker) (e : Event) : Prop :=
  match e with
  | Xack stream group _ => stream = input_queue self /\ group = input_queue self
  | Xdel stream _ => stream = input_queue self
  | _ => True
  end.

(** The input object that [handle_message] builds from the keyword
    arguments [message["input"]], or what building it raises. *)
Definition decoded (message : Json) : Exn + I :=
  match getitem message "input" with
  | inl e => inl e
  | inr input =>
      match kwargs input with
      | inl e => inl e
      | inr arguments => InputType arguments
      end
  end.

(** The events of the cleanup of [functions]. *)
Fixpoint cleanup_trace (functions : list I) : list Event :=
  match functions with
  | [] => []
  | input_obj :: rest =>
      CleanupCalled input_obj ::
      match cleanup input_obj with
      | Some e => Stderr (CleanupError e) :: cleanup_trace rest
      | None => cleanup_trace rest
      end
  end.

End Readings.

(** The same arguments with another [log_queue]. *)
Definition with_log_queue (a : Args) (l : option string) : Args :=
  {| arg_redis_host := arg_redis_host a;
     arg_redis_port := arg_redis_port a;
     arg_input_queue := arg_input_queue a;
     arg_upload_url := arg_upload_url a;
     arg_consumer_id := arg_consumer_id a;
     arg_model_id := arg_model_id a;
     arg_log_queue := l;
     arg_predict_timeout := arg_predict_timeout a;
     arg_redis_db := arg_redis_db a |}.


Section Frames.

Context {R I V : Type}.

(** A computation that changes nothing of the state but the runner. *)
Definition keeps {A : Type} (s : @State R I)
    (x : Res A * @State R I * list (@Event I V)) : Prop :=
  should_exit x.1.2 = should_exit s /\
  cleanup_functions x.1.2 = cleanup_functions s /\
  clock_reads x.1.2 = clock_reads s /\
  autoclaim_replies x.1.2 = autoclaim_replies s /\
  readgroup_replies x.1.2 = readgroup_replies s /\
  sigterm x.1.2 = sigterm s.

End Frames.

(** ** [_queue_worker_from_argv] *)

Section Argv.

(** [int(s)] for a string [s]: the integer, or what [int] raises. *)
Variable int : string -> Exn + Z.

(** Lines 330-344.  The arguments are the strings of [sys.argv];
    [predict_timeout] is converted first, [redis_port] when the
    arguments of the constructor are evaluated; [redis_db] is left to
    its default. *)
Definition _queue_worker_from_argv
    (redis_host redis_port input_queue upload_url comsumer_id model_id log_queue : string)
    (predict_timeout : option string) : Exn + RedisQueueWorker :=
  match
    match predict_timeout with
    | Some t =>
        match int t with
        | inl e => inl e
        | inr n => inr (Some n)
        end
    | None => inr None
    end
  with
  | inl e => inl e
  | inr predict_timeout_int =>
      match int redis_port with
      | inl e => inl e
      | inr port =>
          inr (init (mkArgs redis_host port input_queue upload_url comsumer_id
                       (Some model_id) (Some log_queue) predict_timeout_int 0))
      end
  end.

End Argv.

#[local] Unset Default Proof Using.

(** ** Symbolic execution

    A computation is unfolded and the goal is split on what each call
    in turn gives, innermost first. *)

Ltac unfold_monad :=
  unfold bind, call, try_except, try_finally, try_except_ValidationError,
    rpush, xack, xdel, xadd, stderr_write, emit, lift, assert, ret, raise, spin, time.

Ltac innermost tac :=
  match goal with
  | |- context [match ?x with _ => _ end] =>
      lazymatch x with
      | context [match _ with _ => _ end] => fail
      | _ => tac x
      end
  end.

Ltac split_on x := destruct x eqn:?; simpl in *.

Ltac forall_events :=
  repeat first [ apply Forall_nil_2 | apply Forall_cons_2 | apply Forall_app_2 ];
  simpl; try reflexivity; eauto.

Section Properties.

Context {R I V : Type} `{!PredictionRunner R I V} `{!Helpers I V}.
Variable self : RedisQueueWorker.

Abbreviation Ev := (@Event I V).
Abbreviation St := (@State R I).


(** *** Traces *)

Lemma pushed_app (a b : list Ev) : pushed (a ++ b) = pushed a ++ pushed b.
Proof.
  induction a as [|e a IH]; simpl; [reflexivity|].
  destruct e; simpl; rewrite ?IH; reflexivity.
Qed.

Lemma channels_app (a b : list Ev) : channels (a ++ b) = channels a ++ channels b.
Proof.
  induction a as [|e a IH]; simpl; [reflexivity|].
  destruct e; simpl; rewrite ?IH; reflexivity.
Qed.

Lemma acked_app (a b : list Ev) : acked (a ++ b) = acked a ++ acked b.
Proof.
  induction a as [|e a IH]; simpl; [reflexivity|].
  destruct e; simpl; rewrite ?IH; reflexivity.
Qed.

Lemma appended_app name (a b : list Ev) :
  appended name (a ++ b) = appended name a ++ appended name b.
Proof.
  induction a as [|e a IH]; simpl; [reflexivity|].
  destruct e; simpl; rewrite ?IH; try reflexivity.
  destruct (String.eqb stream name); simpl; rewrite ?IH; reflexivity.
Qed.

Lemma commands_app (a b : list Ev) : commands (a ++ b) = commands a ++ commands b.
Proof. apply List.filter_app. Qed.

Lemma poll_stream q (e : Ev) : poll_event q e -> stream_event q e.
Proof. destruct e as [| | | | | | | | |c| |]; simpl; auto. destruct c; simpl; auto. Qed.

Lemma stream_mode q (e : Ev) : stream_event q e -> mode_event q e.
Proof. destruct e as [| | | | | | | | |c| |]; simpl; auto. destruct c; simpl; auto. Qed.

Lemma mode_driver q (e : Ev) : mode_event q e -> driver_event q e.
Proof. destruct e as [| | | | | | | | |c| |]; simpl; auto; destruct c; simpl; auto. Qed.

Lemma Forall_poll_stream q (o : list Ev) :
  Forall (poll_event q) o -> Forall (stream_event q) o.
Proof. intros Ho. eapply Forall_impl; [exact Ho|apply poll_stream]. Qed.

Lemma Forall_stream_mode q (o : list Ev) :
  Forall (stream_event q) o -> Forall (mode_event q) o.
Proof. intros Ho. eapply Forall_impl; [exact Ho|apply stream_mode]. Qed.

Lemma Forall_poll_mode q (o : list Ev) :
  Forall (poll_event q) o -> Forall (mode_event q) o.
Proof. intros. apply Forall_stream_mode, Forall_poll_stream. assumption. Qed.

Lemma Forall_mode_driver q (o : list Ev) :
  Forall (mode_event q) o -> Forall (driver_event q) o.
Proof. intros Ho. eapply Forall_impl; [exact Ho|apply mode_driver]. Qed.

Lemma Forall_poll_driver q (o : list Ev) :
  Forall (poll_event q) o -> Forall (driver_event q) o.
Proof. intros. apply Forall_mode_driver, Forall_poll_mode. assumption. Qed.

#[local] Hint Resolve Forall_poll_stream Forall_stream_mode Forall_poll_mode
  Forall_mode_driver Forall_poll_driver : core.

(** *** Chains of logs *)

Lemma chain_refl l : chain l [] l.
Proof. constructor. reflexivity. Qed.

Lemma chain_prefix l frames l' : chain l frames l' -> l `prefix_of` l'.
Proof. induction 1; [assumption|]. etrans; eassumption. Qed.

Lemma chain_app l fs l1 gs l2 :
  chain l fs l1 -> chain l1 gs l2 -> chain l (fs ++ gs) l2.
Proof.
  induction 1 as [l l' Hp|l r fs l' Hs Hp Hc IH]; intros Hg; simpl.
  - inversion Hg; subst.
    + constructor. etrans; eassumption.
    + constructor; auto. etrans; eassumption.
  - constructor; auto.
Qed.

Lemma chain_push l output new frames l' :
  chain (l ++ new) frames l' ->
  chain l (ResponseFrame (mkResponse PROCESSING output (l ++ new) None) :: frames) l'.
Proof. intros Hc. constructor; [reflexivity|apply prefix_app_r; reflexivity|exact Hc]. Qed.

Lemma chain_processing l frames l' :
  chain l frames l' -> Forall (fun f => frame_status f = PROCESSING) frames.
Proof. induction 1; constructor; auto. Qed.





(** *** The polling loops *)


Ltac use_polled H x :=
  let Hx := fresh "Hx" in
  pose proof H as Hx; destruct x as [[[?|?|] ?] ?];
  unfold polled in Hx; simpl in *; destruct Hx as [? [? (? & ? & ?)]].

Ltac polling IH :=
  repeat innermost ltac:(fun x =>
    lazymatch x with
    | logs_until_output ?f ?q ?l ?s => use_polled (IH l s) x
    | logs_until_done ?f ?q ?l ?s => use_polled (IH l s) x
    | _ => split_on x
    end);
  simplify_eq; unfold polled; (split; [forall_events|split; [simpl; forall_events|]]);
  eauto 6 using chain_refl, chain_push.

Lemma logs_until_output_polled fuel q logs (s : St) :
  polled (poll_event q) id logs (logs_until_output fuel q logs s).
Proof.
  revert logs s. induction fuel as [|fuel IH]; intros logs s; simpl; unfold_monad; simpl.
  - split; [constructor|]. split; [exact Logic.I|]. eauto using chain_refl.
  - polling IH.
Qed.

Lemma logs_until_done_polled fuel q logs (s : St) :
  polled (poll_event q) id logs (logs_until_done fuel q logs s).
Proof.
  revert logs s. induction fuel as [|fuel IH]; intros logs s; simpl; unfold_monad; simpl.
  - split; [constructor|]. split; [exact Logic.I|]. eauto using chain_refl.
  - polling IH.
Qed.

Lemma encode_all_lift values (s : St) :
  encode_all self values s = lift (encode_values (upload_url self) values) s.
Proof.
  induction values as [|o values IH]; simpl; [reflexivity|].
  unfold bind. destruct (encode_json (upload_url self) o) as [e|j]; simpl; [reflexivity|].
  rewrite IH. destruct (encode_values (upload_url self) values); reflexivity.
Qed.

Lemma stream_output_polled fuel q output logs (s : St) :
  polled (stream_event q) snd logs (stream_output self fuel q output logs s).
Proof.
  revert output logs s. induction fuel as [|fuel IH]; intros output logs s; simpl.
  - split; [constructor|]. split; [exact Logic.I|]. eauto using chain_refl.
  - unfold_monad; simpl.
    repeat innermost ltac:(fun x =>
      lazymatch x with
      | stream_output _ ?f ?q ?o ?l ?s => use_polled (IH o l s) x
      | encode_all _ ?vs ?s => rewrite (encode_all_lift vs s); unfold lift, ret, raise
      | _ => split_on x
      end);
    simplify_eq; unfold polled; (split; [forall_events|split; [simpl; forall_events|]]);
      eauto 6 using chain_refl, chain_push.
    all: rewrite <- (app_nil_r logs) at 1; eauto 6 using chain_push.
Qed.

(** *** The driver *)


Lemma driven_raise (P : Ev -> Prop) l e (s : St) : driven P l (Raise e, s, []).
Proof. split; [constructor|]. exists l. apply chain_refl. Qed.

Lemma driven_spin (P : Ev -> Prop) l (s : St) : driven P l (Spin, s, []).
Proof. split; [constructor|]. exists l. apply chain_refl. Qed.

Lemma driven_terminal (P : Ev -> Prop) l q t (s : St) :
  P (Rpush q t) -> ends l t -> driven P l (Ok tt, s, [Rpush q t]).
Proof.
  intros HP He. split; [repeat constructor; exact HP|].
  exists [], t, l. split; [reflexivity|]. split; [apply chain_refl|].
  split; [exact He|]. intros _. repeat constructor.
Qed.

(** An event that pushes nothing may come first; when the part ends
    with a [succeeded] frame the event must be clean. *)
Lemma driven_skip (P : Ev -> Prop) l r (s : St) e out :
  P e -> (forall rest, pushed (e :: rest) = pushed rest) ->
  match r with
  | Ok _ => forall pre t, pushed out = pre ++ [t] -> frame_status t = SUCCEEDED -> clean e
  | _ => True
  end ->
  driven P l (r, s, out) -> driven P l (r, s, e :: out).
Proof.
  intros HP He Hc [HF H]. split; [constructor; assumption|]. rewrite He.
  destruct r as [[]| |]; [|exact H|exact H].
  destruct H as (pre & t & l' & Hp & Hch & Hend & Hs).
  exists pre, t, l'. repeat split; try assumption; try apply Hend.
  intros Hst. constructor; [eapply Hc; eassumption|auto].
Qed.

Lemma driven_prepend (P : Ev -> Prop) l0 l1 o r (s : St) out :
  Forall P o -> Forall clean o -> chain l0 (pushed o) l1 ->
  driven P l1 (r, s, out) -> driven P l0 (r, s, o ++ out).
Proof.
  intros Ho Hq Hc [HF H]. split; [apply Forall_app_2; assumption|].
  rewrite pushed_app. destruct r as [[]| |].
  - destruct H as (pre & t & l & -> & Hp & He & Hs).
    exists (pushed o ++ pre), t, l. rewrite app_assoc.
    repeat split; try apply He; eauto using chain_app.
    intros Hst. apply Forall_app_2; auto.
  - destruct H as (l & H). eauto using chain_app.
  - destruct H as (l & H). eauto using chain_app.
Qed.

Lemma driven_suffix (P : Ev -> Prop) l0 r (s s' : St) out o :
  driven P l0 (r, s, out) -> Forall P o -> Forall clean o -> pushed o = [] ->
  driven P l0 (r, s', out ++ o).
Proof.
  intros [HF H] Ho Hq Hp. split; [apply Forall_app_2; assumption|].
  rewrite pushed_app, Hp, app_nil_r. destruct r as [[]| |]; [|exact H|exact H].
  destruct H as (pre & t & l & Hpre & Hch & He & Hs).
  exists pre, t, l. repeat split; try apply He; try assumption.
  intros Hst. apply Forall_app_2; auto.
Qed.

Lemma driven_raised (P : Ev -> Prop) l0 l1 o e (s : St) :
  Forall P o -> chain l0 (pushed o) l1 -> driven P l0 (Raise e, s, o).
Proof. intros Ho Hc. split; eauto. Qed.

Lemma driven_spinning (P : Ev -> Prop) l0 l1 o (s : St) :
  Forall P o -> chain l0 (pushed o) l1 -> driven P l0 (Spin, s, o).
Proof. intros Ho Hc. split; eauto. Qed.

Lemma driven_weaken (P Q : Ev -> Prop) l (x : Res unit * St * list Ev) :
  (forall o, Forall P o -> Forall Q o) -> driven P l x -> driven Q l x.
Proof. destruct x as [[r s] out]. intros HPQ [HF H]. split; auto. Qed.

Lemma driven_state (P : Ev -> Prop) l0 r (s s' : St) out :
  driven P l0 (r, s, out) -> driven P l0 (r, s', out).
Proof. intros H. exact H. Qed.

Lemma ends_response l st o l' err :
  is_terminal_status st = true -> l `prefix_of` l' ->
  ends l (ResponseFrame (mkResponse st o l' err)).
Proof. intros Ht Hp. split; [exact Ht|]. simpl. intros lt [= <-]. exact Hp. Qed.

Lemma ends_error l e : ends l (ErrorFrame e).
Proof. split; [reflexivity|]. intros lt [=]. Qed.

#[local] Hint Resolve ends_error : core.

(** The side condition of [driven_skip]: the event is clean, or the
    frames that follow end with a frame that is not [succeeded]. *)
Ltac skip_side :=
  lazymatch goal with
  | |- True => exact Logic.I
  | |- match ?r with _ => _ end => destruct r; [|exact Logic.I|exact Logic.I]; skip_side
  | |- forall pre t, _ -> _ -> clean _ =>
      first
        [ intros; reflexivity
        | let Hp := fresh in let Hs := fresh in
          intros ? ? Hp Hs; simpl in Hp; symmetry in Hp;
          apply app_singleton in Hp; destruct Hp as [[? ?]|[? ?]];
          simplify_eq; discriminate Hs ]
  end.

Ltac drive :=
  repeat first
    [ assumption
    | lazymatch goal with
      | |- driven _ _ (Raise _, _, []) => apply driven_raise
      | |- driven _ _ (Spin, _, []) => apply driven_spin
      | |- driven _ _ (Ok _, _, [Rpush _ _]) =>
          apply driven_terminal;
            [ simpl; solve [auto]
            | first [ apply ends_error
                    | apply ends_response;
                        [ reflexivity
                        | first [ reflexivity | apply prefix_app_r; reflexivity ] ] ] ]
      | |- driven _ _ (_, _, _ :: _) =>
          apply driven_skip; [ simpl; solve [auto] | reflexivity | solve [skip_side] | ]
      | |- driven _ _ (_, _, _ ++ _) =>
          first [ eapply driven_prepend; [ solve [eauto] | eassumption | eassumption | ]
                | eapply driven_suffix;
                    [ eassumption | solve [forall_events] | solve [forall_events]
                    | reflexivity ] ]
      | |- driven _ _ (Raise _, _, _) =>
          eapply driven_raised; [ solve [eauto] | eassumption ]
      | |- driven _ _ (Spin, _, _) =>
          eapply driven_spinning; [ solve [eauto] | eassumption ]
      | |- driven _ _ _ =>
          eapply driven_weaken; [ | eassumption ]; solve [auto]
      end ].

Ltac use_driven H x :=
  pose proof H as ?Hx; destruct x as [[? ?] ?]; simpl in *.

Lemma push_failed_driven q output logs (s : St) :
  driven (mode_event q) logs (push_failed q output logs s).
Proof.
  unfold push_failed; unfold_monad; simpl.
  repeat innermost split_on; simplify_eq; drive.
Qed.

Ltac known x :=
  lazymatch x with
  | logs_until_output ?f ?q ?l ?s => use_polled (logs_until_output_polled f q l s) x
  | logs_until_done ?f ?q ?l ?s => use_polled (logs_until_done_polled f q l s) x
  | stream_output _ ?f ?q ?o ?l ?s => use_polled (stream_output_polled f q o l s) x
  | encode_all _ ?vs ?s => rewrite (encode_all_lift vs s); unfold lift, ret, raise
  end.

Ltac running_with extra :=
  repeat innermost ltac:(fun x => first [ extra x | known x | split_on x ]);
  simplify_eq.

Ltac running := running_with ltac:(fun x => fail).

Lemma scalar_mode_driven fuel q logs (s : St) :
  driven (mode_event q) logs (scalar_mode self fuel q logs s).
Proof.
  unfold scalar_mode, push_failed; unfold_monad; simpl.
  running; drive.
Qed.

Lemma generator_mode_driven fuel q logs (s : St) :
  driven (mode_event q) logs (generator_mode self fuel q logs s).
Proof.
  unfold generator_mode, push_failed; unfold_monad; simpl.
  running; drive.
Qed.

Lemma predict_driven fuel q input_obj (s : St) :
  driven (driver_event q) [] (predict self fuel q input_obj s).
Proof.
  unfold predict, push_failed; unfold_monad; simpl.
  running_with ltac:(fun x =>
    lazymatch x with
    | scalar_mode _ ?f ?q ?l ?s => use_driven (scalar_mode_driven f q l s) x
    | generator_mode _ ?f ?q ?l ?s => use_driven (generator_mode_driven f q l s) x
    end);
  drive.
Qed.

Lemma handle_message_driven fuel q message (s : St) :
  driven (driver_event q) [] (handle_message self fuel q message s).
Proof.
  unfold handle_message, push_error, with_timeout, timeout_enter, timeout_exit,
    handle_timeout, timeout_init; unfold_monad; simpl.
  running_with ltac:(fun x =>
    lazymatch x with
    | predict _ ?f ?q ?i ?s => use_driven (predict_driven f q i s) x
    end);
  repeat match goal with u : unit |- _ => destruct u end;
  rewrite ?app_nil_r;
  drive; eauto using driven_state.
Qed.

(** *** One iteration *)

Lemma run_cleanup_functions_run (functions : list I) (s : St) :
  exists cl, run_cleanup_functions functions s = (Ok tt, s, cl) /\
    Forall cleanup_event cl.
Proof.
  induction functions as [|f functions (cl & IH & Hcl)]; simpl.
  - exists []. split; [reflexivity|constructor].
  - unfold_monad; simpl. destruct (cleanup f) as [e|]; simpl; rewrite IH; simpl.
    + eexists. split; [reflexivity|]. forall_events.
    + eexists. split; [reflexivity|]. forall_events.
Qed.


Lemma process_message_run fuel message_id message_json message q (s : St) :
  json_loads message_json = inr message ->
  getitem message "response_queue" = inr q ->
  exists rh sh oh s' stats cl,
    handle_message self fuel q message (job_state s) = (rh, sh, oh) /\
    process_message self fuel message_id message_json s =
      (match rh with Spin => Spin | _ => Ok tt end, s',
       Stderr (ReceivedMessage (input_queue self)) ::
         oh ++ after_job self q message_id rh ++ stats ++ cl) /\
    Forall cleanup_event cl /\
    match rh with
    | Ok _ => exists d, stats =
        [Xadd (predict_time_queue self) d (stats_queue_length self); Stderr (RunTime d)]
    | Raise _ => stats = []
    | Spin => stats = [] /\ cl = []
    end.
Proof.
  intros Hjs Hq. unfold process_message, push_error; unfold_monad; simpl.
  rewrite Hjs; simpl. rewrite Hq; simpl. fold (job_state s).
  destruct (handle_message self fuel q message (job_state s)) as [[rh sh] oh].
  exists rh, sh, oh. destruct rh as [[]|e|]; simpl.
  - match goal with |- context [run_cleanup_functions ?f ?st] =>
      destruct (run_cleanup_functions_run f st) as (cl & -> & Hcl) end.
    eexists _, _, cl. split; [reflexivity|]. split; [|split; [exact Hcl|eauto]].
    simpl. rewrite <- !app_assoc. reflexivity.
  - match goal with |- context [run_cleanup_functions ?f ?st] =>
      destruct (run_cleanup_functions_run f st) as (cl & -> & Hcl) end.
    eexists _, [], cl. split; [reflexivity|]. split; [|split; [exact Hcl|eauto]].
    simpl. rewrite <- !app_assoc. reflexivity.
  - eexists _, [], []. split; [reflexivity|]. rewrite !app_nil_r. auto.
Qed.

(** *** Enough fuel: the loops end when the predictor stops *)

Section Halting.

Context (rank : R -> nat) `{!PollsBounded rank}.


Ltac ranked x :=
  lazymatch x with
  | is_processing ?r => pose proof (rank_is_processing r)
  | has_logs_waiting ?r => pose proof (rank_has_logs_waiting r)
  | read_logs ?r => pose proof (rank_read_logs r)
  | has_output_waiting ?r => pose proof (rank_has_output_waiting r)
  | read_output ?r => pose proof (rank_read_output r)
  | is_output_generator ?r => pose proof (rank_is_output_generator r)
  | runner_error ?r => pose proof (rank_runner_error r)
  end;
  let E := fresh "E" in
  destruct x as [? ?] eqn:E; try rewrite E in *; simpl in *.

Ltac use_halts H x :=
  let Hx := fresh "Hx" in
  pose proof H as Hx; destruct x as [[? ?] ?]; unfold halts in Hx; simpl in *.

Ltac halted :=
  simplify_eq;
  repeat match goal with
  | E : is_processing ?r = (inr true, ?r') |- _ =>
      generalize (rank_processing _ _ E); clear E; intro
  end;
  repeat match goal with
  | H : ?a < ?b -> _ /\ _ |- _ =>
      let Hp := fresh in
      assert (Hp : a < b) by (simpl in *; lia); specialize (H Hp); destruct H
  end;
  unfold halts; simpl in *;
  first [ congruence | lia | split; [ first [ discriminate | assumption ] | lia ] ].

Lemma logs_until_output_halts fuel q logs (s : St) :
  rank (runner s) < fuel ->
  halts rank (rank (runner s)) (logs_until_output fuel q logs s).
Proof.
  revert logs s. induction fuel as [|fuel IH]; intros logs s Hf; [lia|].
  simpl; unfold_monad; simpl.
  repeat innermost ltac:(fun x =>
    first [ ranked x
          | lazymatch x with
            | logs_until_output ?f ?q ?l ?s => use_halts (IH l s) x
            end
          | split_on x ]);
  halted.
Qed.

Lemma logs_until_done_halts fuel q logs (s : St) :
  rank (runner s) < fuel ->
  halts rank (rank (runner s)) (logs_until_done fuel q logs s).
Proof.
  revert logs s. induction fuel as [|fuel IH]; intros logs s Hf; [lia|].
  simpl; unfold_monad; simpl.
  repeat innermost ltac:(fun x =>
    first [ ranked x
          | lazymatch x with
            | logs_until_done ?f ?q ?l ?s => use_halts (IH l s) x
            end
          | split_on x ]);
  halted.
Qed.

Lemma stream_output_halts fuel q output logs (s : St) :
  rank (runner s) < fuel ->
  halts rank (rank (runner s)) (stream_output self fuel q output logs s).
Proof.
  revert output logs s. induction fuel as [|fuel IH]; intros output logs s Hf; [lia|].
  simpl; unfold_monad; simpl.
  repeat innermost ltac:(fun x =>
    first [ ranked x
          | lazymatch x with
            | stream_output _ ?f ?q ?o ?l ?s => use_halts (IH o l s) x
            | encode_all _ ?vs ?s => rewrite (encode_all_lift vs s); unfold lift, ret, raise
            end
          | split_on x ]);
  halted.
Qed.

Ltac halting_with extra :=
  repeat innermost ltac:(fun x =>
    first [ ranked x
          | extra x
          | lazymatch x with
            | logs_until_output ?f ?q ?l ?s => use_halts (logs_until_output_halts f q l s) x
            | logs_until_done ?f ?q ?l ?s => use_halts (logs_until_done_halts f q l s) x
            | stream_output _ ?f ?q ?o ?l ?s => use_halts (stream_output_halts f q o l s) x
            | encode_all _ ?vs ?s => rewrite (encode_all_lift vs s); unfold lift, ret, raise
            end
          | split_on x ]);
  halted.

Lemma scalar_mode_halts fuel q logs (s : St) :
  rank (runner s) < fuel ->
  halts rank (rank (runner s)) (scalar_mode self fuel q logs s).
Proof.
  intros Hf. unfold scalar_mode, push_failed; unfold_monad; simpl.
  halting_with ltac:(fun x => fail).
Qed.

Lemma generator_mode_halts fuel q logs (s : St) :
  rank (runner s) < fuel ->
  halts rank (rank (runner s)) (generator_mode self fuel q logs s).
Proof.
  intros Hf. unfold generator_mode, push_failed; unfold_monad; simpl.
  halting_with ltac:(fun x => fail).
Qed.

Lemma predict_halts fuel q input_obj (s : St) :
  rank (run input_obj (runner s)).2 < fuel ->
  (predict self fuel q input_obj s).1.1 <> Spin.
Proof.
  intros Hf. unfold predict, push_failed; unfold_monad; simpl.
  destruct (run input_obj (runner s)) as [[e|[]] rn]; simpl in *; [discriminate|].
  halting_with ltac:(fun x =>
    lazymatch x with
    | scalar_mode _ ?f ?q ?l ?s => use_halts (scalar_mode_halts f q l s) x
    | generator_mode _ ?f ?q ?l ?s => use_halts (generator_mode_halts f q l s) x
    end).
Qed.

Lemma handle_message_halts fuel q message (s : St) :
  (forall input_obj, rank (run input_obj (runner s)).2 < fuel) ->
  (handle_message self fuel q message s).1.1 <> Spin.
Proof.
  intros Hf.
  unfold handle_message, push_error, with_timeout, timeout_enter, timeout_exit,
    handle_timeout, timeout_init; unfold_monad; simpl.
  repeat innermost ltac:(fun x =>
    first [ lazymatch x with
            | predict _ ?f ?q ?i ?s =>
                let Hx := fresh "Hx" in
                pose proof (predict_halts f q i s) as Hx;
                destruct x as [[? ?] ?]; simpl in *
            end
          | split_on x ]);
  simplify_eq; try discriminate; auto.
Qed.

End Halting.

(** *** What scalar mode reads *)


Lemma scalar_read_prepend vs r (s s' : St) o out :
  scalar_read (upload_url self) vs (r, s, out) -> scalar_read (upload_url self) vs (r, s', o ++ out).
Proof.
  unfold scalar_read. destruct r as [[]| |]; auto.
  intros (v & j & l & ? & ? & Hl). exists v, j, l. repeat split; try assumption.
  rewrite pushed_app, last_app, Hl. reflexivity.
Qed.

Lemma scalar_read_after vs r (s s' : St) out full :
  out `suffix_of` full -> scalar_read (upload_url self) vs (r, s, out) -> scalar_read (upload_url self) vs (r, s', full).
Proof. intros [o ->]. apply scalar_read_prepend. Qed.

Ltac after :=
  first [ reflexivity | apply suffix_cons_r; after | apply suffix_app_r; after ].

Lemma scalar_read_suffix vs r (s s' : St) o out :
  pushed o = [] -> scalar_read (upload_url self) vs (r, s, out) -> scalar_read (upload_url self) vs (r, s', out ++ o).
Proof.
  unfold scalar_read. intros Ho. rewrite pushed_app, Ho, app_nil_r. auto.
Qed.

Ltac elems H :=
  repeat first
    [ rewrite elem_of_app in H | rewrite elem_of_cons in H | rewrite elem_of_nil in H ];
  destruct_or?; simplify_eq;
  try match goal with
  | H : _ ∈ ?o, HF : Forall _ ?o |- _ =>
      exfalso; eapply Forall_forall in HF; [|exact H]; exact HF
  end;
  try contradiction.

Ltac lift_read :=
  match goal with
  | Hr : context [scalar_read _ _ (_, ?s, ?o)] |- scalar_read _ _ (_, _, ?full) =>
      lazymatch full with
      | context [o ++ ?suf] =>
          apply (scalar_read_after _ _ s _ (o ++ suf)); [after|];
          eapply scalar_read_suffix; [reflexivity|eauto]
      | _ => apply (scalar_read_after _ _ s _ o); [after|eauto]
      end
  end.

Lemma scalar_mode_reads fuel q logs (s : St) vs :
  Runner (CReadOutput vs) ∈ (scalar_mode self fuel q logs s).2 ->
  scalar_read (upload_url self) vs (scalar_mode self fuel q logs s).
Proof.
  unfold scalar_mode, push_failed; unfold_monad; simpl.
  running; intros Hin; simpl in Hin; elems Hin; unfold scalar_read;
    try (intros Hn; apply Nat.eqb_eq in Heqb; congruence).
  - match goal with H : index ?vs 0 = inr _ |- _ =>
      destruct vs as [|v' [|]]; try discriminate; unfold index in H; simpl in H
    end.
    simplify_eq. do 3 eexists. split; [reflexivity|]. split; [eassumption|].
    rewrite pushed_app. simpl. apply last_snoc.
  - reflexivity.
Qed.

Lemma driven_events (P : Ev -> Prop) l0 r (s : St) out : driven P l0 (r, s, out) -> Forall P out.
Proof. intros [HF _]. exact HF. Qed.

Lemma predict_reads fuel q input_obj (s : St) vs :
  Runner (CIsOutputGenerator false) ∈ (predict self fuel q input_obj s).2 ->
  Runner (CReadOutput vs) ∈ (predict self fuel q input_obj s).2 ->
  scalar_read (upload_url self) vs (predict self fuel q input_obj s).
Proof.
  unfold predict, push_failed; unfold_monad; simpl.
  running_with ltac:(fun x =>
    lazymatch x with
    | scalar_mode _ ?f ?q ?l ?s =>
        let Hr := fresh "Hr" in
        pose proof (scalar_mode_reads f q l s vs) as Hr;
        use_driven (scalar_mode_driven f q l s) x
    | generator_mode _ ?f ?q ?l ?s => use_driven (generator_mode_driven f q l s) x
    end);
  repeat match goal with H : driven _ _ _ |- _ => apply driven_events in H end;
  intros Hg Hin; simpl in Hg, Hin; elems Hg; elems Hin.
  lift_read.
Qed.

Lemma handle_message_reads fuel q message (s : St) vs :
  Runner (CIsOutputGenerator false) ∈ (handle_message self fuel q message s).2 ->
  Runner (CReadOutput vs) ∈ (handle_message self fuel q message s).2 ->
  scalar_read (upload_url self) vs (handle_message self fuel q message s).
Proof.
  unfold handle_message, push_error, with_timeout, timeout_enter, timeout_exit,
    handle_timeout, timeout_init; unfold_monad; simpl.
  running_with ltac:(fun x =>
    lazymatch x with
    | predict _ ?f ?q ?i ?s =>
        let Hr := fresh "Hr" in
        pose proof (predict_reads f q i s vs) as Hr;
        destruct x as [[? ?] ?]; simpl in *
    end);
  intros Hg Hin; simpl in Hg, Hin; elems Hg; elems Hin.
  all: lift_read.
Qed.

(** *** Traces of the parts of an iteration *)

Lemma cleanup_silent (cl : list Ev) :
  Forall cleanup_event cl ->
  pushed cl = [] /\ channels cl = [] /\ acked cl = [] /\ commands cl = [] /\
  Forall clean cl /\ forall name, appended name cl = [].
Proof.
  induction 1 as [|e cl He _ (? & ? & ? & ? & ? & ?)]; [repeat split; constructor|].
  destruct e as [[]| | | | | | | | | | |]; simpl in *; try contradiction;
    repeat split; auto; constructor; auto; reflexivity.
Qed.

Lemma driver_silent q (o : list Ev) :
  Forall (driver_event q) o ->
  Forall (eq q) (channels o) /\ acked o = [] /\ forall name, appended name o = [].
Proof.
  induction 1 as [|e o He _ (? & ? & ?)]; [repeat split; constructor|].
  destruct e; simpl in *; try contradiction; repeat split; auto.
Qed.

Lemma driver_commands q (o : list Ev) :
  Forall (driver_event q) o -> pushed o = [] -> commands o = [].
Proof.
  induction 1 as [|e o He _ IH]; [reflexivity|].
  destruct e; simpl in *; try contradiction; try discriminate; auto.
Qed.

Lemma pushed_last_split (o : list Ev) pre t :
  pushed o = pre ++ [t] ->
  exists before key after,
    o = before ++ Rpush key t :: after /\ pushed before = pre /\ pushed after = [].
Proof.
  revert pre. induction o as [|e o IH]; intros pre Hp; simpl in Hp.
  - destruct pre; discriminate.
  - assert (Hskip : pushed o = pre ++ [t] ->
      (forall rest, pushed (e :: rest) = pushed rest) ->
      exists before key after,
        e :: o = before ++ Rpush key t :: after /\ pushed before = pre /\
        pushed after = []).
    { intros Ho He. destruct (IH _ Ho) as (b & k & a & -> & Hb & Ha).
      exists (e :: b), k, a. rewrite He. auto. }
    destruct e; try (apply Hskip; [exact Hp|reflexivity]).
    destruct pre as [|p pre]; simpl in Hp; injection Hp as -> Hp.
    + exists [], key, o. simpl. auto.
    + destruct (IH _ Hp) as (b & k & a & -> & Hb & Ha).
      exists (Rpush key p :: b), k, a. simpl. rewrite Hb. auto.
Qed.



(** An iteration that received a well-formed message and did not run
    out of fuel: the trace around the terminal frame. *)
Lemma job_split fuel message_id message_json message q (s : St) rh sh oh :
  json_loads message_json = inr message ->
  getitem message "response_queue" = inr q ->
  handle_message self fuel q message (job_state s) = (rh, sh, oh) ->
  rh <> Spin ->
  exists s' before t after l rest,
    process_message self fuel message_id message_json s =
      (Ok tt, s', before ++ Rpush q t :: after) /\
    chain [] (pushed before) l /\ ends l t /\
    Forall (eq q) (channels before) /\ acked before = [] /\
    pushed after = [] /\
    commands after =
      Xack (input_queue self) (input_queue self) message_id ::
      Xdel (input_queue self) message_id :: rest /\
    (forall e, rh = Raise e -> t = ErrorFrame (str e)) /\
    (frame_status t = SUCCEEDED ->
       rh = Ok tt /\ Forall clean (before ++ Rpush q t :: after)).
Proof.
  intros Hjs Hq Hh Hns.
  destruct (process_message_run fuel message_id message_json message q s Hjs Hq)
    as (rh' & sh' & oh' & s' & stats & cl & Hh' & Hp & Hcl & Hst).
  rewrite Hh in Hh'. simplify_eq.
  pose proof (handle_message_driven fuel q message (job_state s)) as Hd.
  rewrite Hh in Hd. destruct Hd as [HF Hd].
  destruct (cleanup_silent _ Hcl) as (Hcl1 & Hcl2 & Hcl3 & Hcl4 & Hcl5 & Hcl6).
  destruct rh' as [[]|e|]; [| |congruence]; simpl in Hp.
  - destruct Hd as (pre & t & l & Hpre & Hch & He & Hs).
    destruct (pushed_last_split _ _ _ Hpre) as (b & k & a & -> & Hb & Ha).
    apply Forall_app in HF as [HFb HFa]. apply Forall_cons in HFa as [Hk HFa].
    simpl in Hk. subst k.
    destruct (driver_silent _ _ HFb) as (Hb1 & Hb2 & Hb3).
    destruct Hst as (d & ->).
    exists s', (Stderr (ReceivedMessage (input_queue self)) :: b), t,
      (a ++ [Xack (input_queue self) (input_queue self) message_id;
             Xdel (input_queue self) message_id] ++
       [Xadd (predict_time_queue self) d (stats_queue_length self);
        Stderr (RunTime d)] ++ cl), l,
      (Xadd (predict_time_queue self) d (stats_queue_length self) :: commands cl).
    split; [rewrite Hp; simpl; rewrite <- !app_assoc; reflexivity|].
    simpl. rewrite Hb. split_and!; auto.
    + rewrite pushed_app, Ha. simpl. exact Hcl1.
    + rewrite commands_app, (driver_commands _ _ HFa Ha). reflexivity.
    + discriminate.
    + intros Hst. specialize (Hs Hst). split; [reflexivity|].
      constructor; [reflexivity|].
      change (?x ++ Rpush q t :: ?y ++ ?z) with (x ++ (Rpush q t :: y) ++ z).
      rewrite app_assoc. apply Forall_app_2; [exact Hs|].
      repeat (constructor; [reflexivity|]). exact Hcl5.
  - destruct Hd as (l & Hch). subst stats.
    destruct (driver_silent _ _ HF) as (Ho1 & Ho2 & Ho3).
    exists s', (Stderr (ReceivedMessage (input_queue self)) :: oh' ++ [Stderr (PushingError q)]),
      (ErrorFrame (str e)),
      ([Xack (input_queue self) (input_queue self) message_id;
        Xdel (input_queue self) message_id] ++ cl), l, (commands cl).
    split; [rewrite Hp; simpl; rewrite <- !app_assoc; reflexivity|].
    simpl. rewrite pushed_app, channels_app, acked_app, Ho2. simpl.
    rewrite ?app_nil_r. split_and!; auto.
    + intros e' [= <-]. reflexivity.
    + discriminate.
Qed.

(** The entries that an iteration with a well-formed message adds to
    the timing streams. *)
Lemma job_stats fuel message_id message_json message q (s : St) rh sh oh :
  json_loads message_json = inr message ->
  getitem message "response_queue" = inr q ->
  handle_message self fuel q message (job_state s) = (rh, sh, oh) ->
  length (appended (predict_time_queue self)
            (process_message self fuel message_id message_json s).2) =
    match rh with Ok _ => 1 | _ => 0 end /\
  forall name, name <> predict_time_queue self ->
    appended name (process_message self fuel message_id message_json s).2 = [].
Proof.
  intros Hjs Hq Hh.
  destruct (process_message_run fuel message_id message_json message q s Hjs Hq)
    as (rh' & sh' & oh' & s' & stats & cl & Hh' & Hp & Hcl & Hst).
  rewrite Hh in Hh'. simplify_eq. rewrite Hp. simpl.
  pose proof (handle_message_driven fuel q message (job_state s)) as Hd.
  rewrite Hh in Hd. destruct Hd as [HF _].
  destruct (cleanup_silent _ Hcl) as (_ & _ & _ & _ & _ & Hcl6).
  destruct (driver_silent _ _ HF) as (_ & _ & Ho3).
  rewrite !appended_app, Ho3, Hcl6.
  split.
  - destruct rh' as [[]|e|]; simpl.
    + destruct Hst as (d & ->). simpl. rewrite String.eqb_refl. reflexivity.
    + subst stats. reflexivity.
    + destruct Hst as [-> _]. reflexivity.
  - intros name Hname. rewrite !appended_app, Ho3, Hcl6.
    destruct rh' as [[]|e|]; simpl.
    + destruct Hst as (d & ->). simpl.
      destruct (String.eqb_spec (predict_time_queue self) name); [congruence|reflexivity].
    + subst stats. reflexivity.
    + destruct Hst as [-> _]. reflexivity.
Qed.

Lemma process_message_unparsed fuel message_id message_json e (s : St) :
  json_loads message_json = inl e \/
  (exists message, json_loads message_json = inr message /\
     getitem message "response_queue" = inl e) ->
  process_message self fuel message_id message_json s = (Raise e, s, []).
Proof.
  unfold process_message; unfold_monad.
  intros [Hjs|(message & Hjs & Hq)]; rewrite Hjs; simpl; [reflexivity|].
  rewrite Hq. reflexivity.
Qed.

Lemma process_message_appended fuel message_id message_json name (s : St) :
  name <> predict_time_queue self ->
  appended name (process_message self fuel message_id message_json s).2 = [].
Proof.
  intros Hname.
  destruct (json_loads message_json) as [e|message] eqn:Hjs.
  { rewrite (process_message_unparsed _ _ _ e); auto. }
  destruct (getitem message "response_queue") as [e|q] eqn:Hq.
  { rewrite (process_message_unparsed _ _ _ e); eauto. }
  destruct (handle_message self fuel q message (job_state s)) as [[rh sh] oh] eqn:Hh.
  apply (job_stats fuel message_id message_json message q s rh sh oh); assumption.
Qed.

(** *** Receiving *)


Lemma receive_message_events (s : St) :
  Forall receive_event (receive_message self s).2.
Proof.
  unfold receive_message, execute_xautoclaim, xreadgroup; unfold_monad; simpl.
  repeat innermost split_on; forall_events.
Qed.

Lemma receive_silent (o : list Ev) :
  Forall receive_event o ->
  pushed o = [] /\ acked o = [] /\ forall name, appended name o = [].
Proof.
  induction 1 as [|e o He _ (? & ? & ?)]; [repeat split; constructor|].
  destruct e; simpl in *; try contradiction; repeat split; auto.
Qed.

Lemma loop_body_appended fuel name (s : St) :
  name <> predict_time_queue self ->
  appended name (loop_body self fuel s).2 = [].
Proof.
  intros Hname. unfold loop_body, try_except, bind.
  pose proof (receive_message_events s) as Hr.
  destruct (receive_message self s) as [[[[[message_id message_json]|]|e|] s1] o1];
    simpl in *; apply receive_silent in Hr as (_ & _ & Hr);
    rewrite ?appended_app, ?Hr; try reflexivity.
  pose proof (process_message_appended fuel message_id message_json name s1 Hname) as Hp.
  destruct (process_message self fuel message_id message_json s1) as [[[[]|e|] s2] o2];
    simpl in *; rewrite ?appended_app, ?Hr, ?Hp; reflexivity.
Qed.

Lemma worker_loop_appended iterations fuel name (s : St) :
  name <> predict_time_queue self ->
  appended name (worker_loop self iterations fuel s).2 = [].
Proof.
  intros Hname. revert s. induction iterations as [|n IH]; intros s; [reflexivity|].
  simpl. unfold bind, deliver_sigterm, signal_exit.
  assert (Hloop : forall s0 : St,
    appended name
      (let '(r, s2, o2) :=
         (if should_exit s0 then ret tt
          else fun s1 =>
            match loop_body self fuel s1 with
            | (Ok a, s3, o1) =>
                let '(r, s4, o3) := worker_loop self n fuel s3 in (r, s4, o1 ++ o3)
            | (Raise e, s3, o1) => (Raise e, s3, o1)
            | (Spin, s3, o1) => (Spin, s3, o1)
            end) s0 in (r, s2, o2)).2 = []).
  { intros s0. destruct (should_exit s0); [reflexivity|].
    pose proof (loop_body_appended fuel name s0 Hname) as Hb.
    destruct (loop_body self fuel s0) as [[[[]|e|] s3] o1]; simpl in *; auto.
    specialize (IH s3). destruct (worker_loop self n fuel s3) as [[r s4] o3].
    simpl in *. rewrite appended_app, Hb, IH. reflexivity. }
  destruct (sigterm s) as [|[|] rest]; simpl.
  - specialize (Hloop s). destruct (should_exit s); simpl in *; [reflexivity|].
    destruct (loop_body self fuel s) as [[[[]|e|] s3] o1]; simpl in *; auto.
    destruct (worker_loop self n fuel s3) as [[r s4] o3]. exact Hloop.
  - reflexivity.
  - specialize (Hloop (set_sigterm rest s)). simpl in Hloop.
    destruct (should_exit s); simpl in *; [reflexivity|].
    destruct (loop_body self fuel (set_sigterm rest s)) as [[[[]|e|] s3] o1];
      simpl in *; auto.
    destruct (worker_loop self n fuel s3) as [[r s4] o3]. exact Hloop.
Qed.

Lemma start_appended_setup iterations fuel (s : St) :
  setup_time_queue self <> predict_time_queue self ->
  (setup (runner s)).1 = inr tt ->
  length (appended (setup_time_queue self) (start self iterations fuel s).2) = 1.
Proof.
  intros Hname Hsetup. unfold start; unfold_monad; simpl.
  destruct (setup (runner s)) as [[e|[]] rn]; simpl in *; [discriminate|].
  match goal with |- context [worker_loop self iterations fuel ?st] =>
    pose proof (worker_loop_appended iterations fuel _ st Hname) as Hw;
    destruct (worker_loop self iterations fuel st) as [[r s'] o]
  end.
  simpl in *. rewrite String.eqb_refl. simpl. rewrite Hw. reflexivity.
Qed.

(** ** The claims *)



(** C3.  A job whose message parses ends with a terminal frame on its
    reply channel, followed, with no other push, by the ack and the
    delete of the message; when [handle_message] raised [e] that frame
    is the [failed] frame of [push_error] for [e], and the frame is
    [succeeded] only when no error shows in the trace.  A message that
    is not JSON or has no [response_queue] is only logged: nothing is
    pushed and nothing is acked. *)
Theorem errors_reported_then_acked (rank : R -> nat) `{!PollsBounded rank}
    fuel message_id message_json (s : St) :
  (forall message q,
     json_loads message_json = inr message ->
     getitem message "response_queue" = inr (JStr q) ->
     (forall input_obj, rank (run input_obj (runner s)).2 < fuel) ->
     exists before t after rest,
       (process_message self fuel message_id message_json s).2 =
         before ++ Rpush (JStr q) t :: after /\
       is_terminal t = true /\
       acked before = [] /\
       pushed after = [] /\
       commands after =
         Xack (input_queue self) (input_queue self) message_id ::
         Xdel (input_queue self) message_id :: rest /\
       (forall e,
          (handle_message self fuel (JStr q) message (job_state s)).1.1 = Raise e ->
          t = ErrorFrame (str e)) /\
       (frame_status t = SUCCEEDED ->
          Forall clean (process_message self fuel message_id message_json s).2)) /\
  (forall e s0 s1 o1,
     receive_message self s0 = (Ok (Some (message_id, message_json)), s1, o1) ->
     json_loads message_json = inl e \/
     (exists message, json_loads message_json = inr message /\
        getitem message "response_queue" = inl e) ->
     loop_body self fuel s0 = (Ok tt, s1, o1 ++ [Stderr (FailedToHandle e)]) /\
     acked (o1 ++ [Stderr (FailedToHandle e)]) = [] /\
     pushed (o1 ++ [Stderr (FailedToHandle e)]) = []).
Proof.
  split.
  - intros message q Hjs Hq Hrank.
    destruct (handle_message self fuel (JStr q) message (job_state s))
      as [[rh sh] oh] eqn:Hh.
    assert (Hns : rh <> Spin).
    { pose proof (handle_message_halts rank fuel (JStr q) message (job_state s) Hrank) as H.
      rewrite Hh in H. exact H. }
    destruct (job_split fuel message_id message_json message (JStr q) s rh sh oh
                Hjs Hq Hh Hns)
      as (s' & before & t & after & l & rest & -> & _ & [Ht _] & _ & Hb & Ha & Hc & He & Hs).
    exists before, t, after, rest. simpl. split_and!; auto. apply Hs.
  - intros e s0 s1 o1 Hr Hbad.
    pose proof (receive_message_events s0) as Hev. rewrite Hr in Hev. simpl in Hev.
    apply receive_silent in Hev as (Hp & Ha & _).
    unfold loop_body, try_except, bind. rewrite Hr.
    rewrite (process_message_unparsed _ _ _ e s1 Hbad). simpl.
    rewrite app_nil_r, acked_app, pushed_app, Hp, Ha. auto.
Qed.

(** C4.  With [predict_timeout = 0] and a valid input, entering the
    timeout scope raises [TimeoutError("Prediction timed out")] at
    once: the runner is not touched, the only frame is the [failed]
    frame with that error string, and the message is then acked and
    deleted. *)
Theorem zero_timeout_fails_at_once fuel message_id message_json message q
    input arguments input_obj (s : St) :
  predict_timeout self = Some 0%Z ->
  json_loads message_json = inr message ->
  getitem message "response_queue" = inr (JStr q) ->
  getitem message "input" = inr input ->
  kwargs input = inr arguments ->
  InputType arguments = inr input_obj ->
  @timeout_enter R I V
      (timeout_init (predict_timeout self) None default_error_message) s =
    (Raise (TimeoutError "Prediction timed out"), s, []) /\
  exists s',
    process_message self fuel message_id message_json s =
      (Ok tt, s',
       [Stderr (ReceivedMessage (input_queue self));
        Stderr (PushingError (JStr q));
        Rpush (JStr q) (ErrorFrame "Prediction timed out");
        Xack (input_queue self) (input_queue self) message_id;
        Xdel (input_queue self) message_id;
        CleanupCalled input_obj] ++
       match cleanup input_obj with
       | Some e => [Stderr (CleanupError e)]
       | None => []
       end) /\
    runner s' = runner s.
Proof.
  intros Ht Hjs Hq Hin Hkw Hty.
  split; [unfold timeout_enter; rewrite Ht; reflexivity|].
  unfold process_message, handle_message, push_error, with_timeout, timeout_enter,
    handle_timeout; unfold_monad.
  rewrite Hjs; simpl. rewrite Hq; simpl. rewrite Hin; simpl. rewrite Hkw; simpl.
  rewrite Hty; simpl. rewrite Ht; simpl.
  destruct (cleanup input_obj); simpl; eexists; split; reflexivity.
Qed.

(** C6.  In scalar mode (the runner said it is not a generator), once
    [read_output] has returned [vs]: the iteration returns; when [vs]
    does not hold exactly one value, [handle_message] raises an
    [AssertionError], no [succeeded] frame is pushed and the last frame
    is the [failed] frame of [push_error]; and a [succeeded] last frame
    carries the encoding of the single value of [vs]. *)
Theorem scalar_output_invariant fuel message_id message_json message q vs (s : St) :
  json_loads message_json = inr message ->
  getitem message "response_queue" = inr (JStr q) ->
  let '(rh, _, _) := handle_message self fuel (JStr q) message (job_state s) in
  let '(r, _, out) := process_message self fuel message_id message_json s in
  Runner (CIsOutputGenerator false) ∈ out ->
  Runner (CReadOutput vs) ∈ out ->
  r = Ok tt /\
  (length vs <> 1 ->
     rh = Raise AssertionError /\
     last (pushed out) = Some (ErrorFrame (str AssertionError)) /\
     Forall (fun f => frame_status f <> SUCCEEDED) (pushed out)) /\
  (forall t, last (pushed out) = Some t -> frame_status t = SUCCEEDED ->
     exists v j l,
       vs = [v] /\ encode_json (upload_url self) v = inr j /\
       t = ResponseFrame (mkResponse SUCCEEDED (OValue j) l None)).
Proof.
  intros Hjs Hq.
  destruct (process_message_run fuel message_id message_json message (JStr q) s Hjs Hq)
    as (rh & sh & oh & s' & stats & cl & Hh & Hp & Hcl & Hst).
  pose proof (handle_message_reads fuel (JStr q) message (job_state s) vs) as Hr.
  pose proof (handle_message_driven fuel (JStr q) message (job_state s)) as Hd.
  rewrite Hh in Hr, Hd |- *. rewrite Hp. simpl in Hr.
  destruct (cleanup_silent _ Hcl) as (Hcl1 & _).
  intros Hg Hin.
  assert (Hoh : Runner (CIsOutputGenerator false) ∈ oh /\ Runner (CReadOutput vs) ∈ oh).
  { destruct rh as [[]|e|]; simpl in Hg, Hin, Hst.
    - destruct Hst as (d & ->). split; [elems Hg|elems Hin]; assumption.
    - subst stats. split; [elems Hg|elems Hin]; assumption.
    - destruct Hst as [-> ->]. split; [elems Hg|elems Hin]; assumption. }
  destruct Hoh as [Hg' Hin']. specialize (Hr Hg' Hin'). unfold scalar_read in Hr.
  destruct Hd as [_ Hd]. simpl. rewrite !pushed_app, Hcl1, app_nil_r.
  destruct rh as [[]|e|]; simpl; [| |contradiction].
  - destruct Hst as (d & ->). simpl. rewrite app_nil_r.
    destruct Hr as (v & j & l & -> & Hj & Hl).
    split; [reflexivity|]. split; [intros Hn; simpl in Hn; congruence|].
    intros t Ht _. rewrite Hl in Ht. injection Ht as <-.
    exists v, j, l. auto.
  - subst stats. simpl. rewrite ?app_nil_r, last_snoc.
    destruct Hd as (l & Hch). apply chain_processing in Hch.
    split; [reflexivity|]. split.
    + intros Hn. rewrite (Hr Hn). split_and!; auto.
      apply Forall_app_2; [|repeat constructor; discriminate].
      eapply Forall_impl; [exact Hch|]. simpl. intros f ->. discriminate.
    + intros t [= <-]. discriminate.
Qed.

(** C9.  A reclaimed entry is returned only when its first field is
    named [value]; with any other first field [receive_message] raises
    an [AssertionError], and the iteration only logs it: the entry is
    not handed on, nothing is pushed and nothing is acked. *)
Theorem reclaimed_entry_needs_value_field fuel key fields rest more (s : St) :
  autoclaim_replies s = (Some (key, fields) :: rest) :: more ->
  (forall received, (receive_message self s).1.1 = Ok received ->
     index fields 0 = inr "value") /\
  (forall field others, fields = field :: others -> field <> "value" ->
     receive_message self s =
       (Raise AssertionError, set_autoclaim_replies more s,
        [Xautoclaim (input_queue self) (input_queue self) (consumer_id self)
           (str_int (max_processing_time self * 1000)) "0-0" 1]) /\
     loop_body self fuel s =
       (Ok tt, set_autoclaim_replies more s,
        [Xautoclaim (input_queue self) (input_queue self) (consumer_id self)
           (str_int (max_processing_time self * 1000)) "0-0" 1;
         Stderr (FailedToHandle AssertionError)])).
Proof.
  intros Hs. split.
  - intros received. unfold receive_message, execute_xautoclaim; unfold_monad.
    rewrite Hs; simpl.
    destruct (index fields 0) as [e|field] eqn:Hf; simpl; [discriminate|].
    destruct (String.eqb_spec field "value") as [->|Hne]; simpl; [reflexivity|discriminate].
  - intros field others -> Hne.
    assert (Hr : receive_message self s =
      (Raise AssertionError, set_autoclaim_replies more s,
       [Xautoclaim (input_queue self) (input_queue self) (consumer_id self)
          (str_int (max_processing_time self * 1000)) "0-0" 1])).
    { unfold receive_message, execute_xautoclaim; unfold_monad.
      rewrite Hs; simpl. unfold index; simpl.
      destruct (String.eqb_spec field "value") as [->|_]; [congruence|reflexivity]. }
    split; [exact Hr|].
    unfold loop_body, try_except, bind. rewrite Hr. reflexivity.
Qed.

(** C10.  When the input type rejects the input mapping with a
    [ValidationError], [handle_message] writes the traceback, pushes
    the [failed] frame of [push_error] and returns; the state is the
    one it started from: the runner was not called and no cleanup
    function was registered. *)
Theorem invalid_input_leaves_state fuel q message input arguments msg (s : St) :
  getitem message "input" = inr input ->
  kwargs input = inr arguments ->
  InputType arguments = inl (ValidationError msg) ->
  handle_message self fuel q message s =
    (Ok tt, s,
     [Stderr (Traceback (ValidationError msg)); Stderr (PushingError q);
      Rpush q (ErrorFrame msg)]) /\
  runner (handle_message self fuel q message s).1.2 = runner s /\
  cleanup_functions (handle_message self fuel q message s).1.2 = cleanup_functions s /\
  Forall (fun e => forall c, e <> Runner c) (handle_message self fuel q message s).2.
Proof.
  intros Hin Hkw Hty.
  assert (Hh : handle_message self fuel q message s =
    (Ok tt, s,
     [Stderr (Traceback (ValidationError msg)); Stderr (PushingError q);
      Rpush q (ErrorFrame msg)])).
  { unfold handle_message, push_error; unfold_monad.
    rewrite Hin; simpl. rewrite Hkw; simpl. rewrite Hty. reflexivity. }
  rewrite Hh. simpl. split_and!; auto.
Qed.

(** ** Further properties *)

(** *** The [timeout] context manager *)

(** X1.  Entering a timeout built with [seconds] and [elapsed] raises
    exactly when [seconds] is given and not more than [elapsed] (0 when
    [elapsed] is not given), and what it raises is a [TimeoutError]
    with the message of the timeout; without [seconds] nothing is
    raised and no alarm is set, whatever [elapsed] is. *)
Theorem timeout_enter_raises_iff_elapsed seconds elapsed msg (s : St) :
  let x := @timeout_enter R I V (timeout_init seconds elapsed msg) s in
  ((exists e, x.1.1 = Raise e) <->
     exists secs, seconds = Some secs /\ (secs <= default 0%Z elapsed)%Z) /\
  (forall e, x.1.1 = Raise e -> e = TimeoutError msg /\ x.2 = []) /\
  (seconds = None -> x = (Ok tt, s, [])) /\
  (forall secs, seconds = Some secs -> (default 0%Z elapsed < secs)%Z ->
     x = (Ok tt, s, [SignalSignal SIGALRM; SignalAlarm (secs - default 0%Z elapsed)])).
Proof.
  unfold timeout_enter, timeout_init, handle_timeout, raise, ret, emit.
  destruct seconds as [secs|], elapsed as [e|]; simpl.
  - destruct (Z.leb_spec (secs - e) 0); simpl; split_and!.
    + split; [intros _; exists secs; split; [reflexivity|lia]|eauto].
    + intros e' [= <-]. auto.
    + discriminate.
    + intros ? [= <-] ?. lia.
    + split; [intros [? ?]; discriminate|intros (? & [= <-] & ?); lia].
    + discriminate.
    + discriminate.
    + intros ? [= <-] _. reflexivity.
  - destruct (Z.leb_spec secs 0); simpl; split_and!.
    + split; [intros _; exists secs; split; [reflexivity|lia]|eauto].
    + intros e' [= <-]. auto.
    + discriminate.
    + intros ? [= <-] ?. lia.
    + split; [intros [? ?]; discriminate|intros (? & [= <-] & ?); lia].
    + discriminate.
    + discriminate.
    + intros ? [= <-] _. rewrite Z.sub_0_r. reflexivity.
  - split_and!; try discriminate; auto.
    split; [intros [? ?]; discriminate|intros (? & ? & _); discriminate].
  - split_and!; try discriminate; auto.
    split; [intros [? ?]; discriminate|intros (? & ? & _); discriminate].
Qed.

(** X2.  A [with] block of a timeout of [secs > 0] seconds sets the
    alarm, runs the body and cancels the alarm (alarm(0)) when the body
    returns and when it raises; the outcome is the outcome of the body.
    A timeout without seconds adds nothing to the body. *)
Theorem alarm_cancelled_on_exit {A : Type} secs msg (body : M A) (s : St) :
  (body s).1.1 <> Spin ->
  ((0 < secs)%Z ->
     @with_timeout R I V A (mkTimeout (Some secs) msg) body s =
       ((body s).1.1, (body s).1.2,
        [SignalSignal SIGALRM; SignalAlarm secs] ++ (body s).2 ++ [SignalAlarm 0])) /\
  @with_timeout R I V A (mkTimeout None msg) body s = body s.
Proof.
  intros Hns. unfold with_timeout, timeout_enter, timeout_exit, try_finally, bind,
    emit, ret; simpl.
  split.
  - intros Hs. destruct (Z.leb_spec secs 0); [lia|]. simpl.
    destruct (body s) as [[[a|e|] s'] out]; simpl in *; congruence.
  - destruct (body s) as [[[a|e|] s'] out]; simpl in *; rewrite ?app_nil_r; congruence.
Qed.

(** *** Errors of the input decoder *)

(** X3.  When decoding the input fails with anything but a
    [ValidationError] (the message has no ["input"], the input is not a
    mapping, the input type raises something else), [handle_message]
    does not catch it: the iteration pushes the frame of [push_error],
    acks and deletes the message, records no run time, and neither the
    runner nor a cleanup function is called. *)
Theorem decoding_error_reported_by_loop fuel message_id message_json message q e
    (s : St) :
  json_loads message_json = inr message ->
  getitem message "response_queue" = inr q ->
  (getitem message "input" = inl e \/
   exists input, getitem message "input" = inr input /\
     (kwargs input = inl e \/
      exists arguments, kwargs input = inr arguments /\ InputType arguments = inl e)) ->
  (forall msg, e <> ValidationError msg) ->
  process_message self fuel message_id message_json s =
    (Ok tt, job_state s,
     [Stderr (ReceivedMessage (input_queue self));
      Stderr (PushingError q);
      Rpush q (ErrorFrame (str e));
      Xack (input_queue self) (input_queue self) message_id;
      Xdel (input_queue self) message_id]).
Proof.
  intros Hjs Hq Hbad Hne.
  unfold process_message, handle_message, push_error; unfold_monad.
  rewrite Hjs; simpl. rewrite Hq; simpl.
  destruct Hbad as [Hin|(input & Hin & [Hkw|(arguments & Hkw & Hty)])];
    rewrite Hin; simpl; try (rewrite Hkw; simpl); try (rewrite Hty; simpl);
    destruct e; try reflexivity; exfalso; eapply Hne; reflexivity.
Qed.

(** X4.  When the input type rejects the input with a
    [ValidationError], the iteration is the one of a job that ran: the
    traceback, the frame of [push_error], the ack and the delete, and
    an entry in the run-time stream; the runner is not called and there
    is nothing to clean up. *)
Theorem validation_error_counts_as_run fuel message_id message_json message q
    input arguments msg (s : St) :
  json_loads message_json = inr message ->
  getitem message "response_queue" = inr q ->
  getitem message "input" = inr input ->
  kwargs input = inr arguments ->
  InputType arguments = inl (ValidationError msg) ->
  let run_time := (clock (S (clock_reads s)) - clock (clock_reads s))%Z in
  process_message self fuel message_id message_json s =
    (Ok tt, set_clock_reads (S (S (clock_reads s))) (set_cleanup_functions [] s),
     [Stderr (ReceivedMessage (input_queue self));
      Stderr (Traceback (ValidationError msg));
      Stderr (PushingError q);
      Rpush q (ErrorFrame msg);
      Xack (input_queue self) (input_queue self) message_id;
      Xdel (input_queue self) message_id;
      Xadd (predict_time_queue self) run_time (stats_queue_length self);
      Stderr (RunTime run_time)]).
Proof.
  intros Hjs Hq Hin Hkw Hty.
  unfold process_message, handle_message, push_error; unfold_monad.
  rewrite Hjs; simpl. rewrite Hq; simpl. rewrite Hin; simpl. rewrite Hkw; simpl.
  rewrite Hty. reflexivity.
Qed.

(** *** Starting and stopping *)

(** X5.  When [setup] raises, [start] raises the same exception at
    once: no entry is added to the setup-time stream and no message is
    asked for. *)
Theorem start_fails_when_setup_fails iterations fuel e (s : St) :
  (setup (runner s)).1 = inl e ->
  exists s',
    start self iterations fuel s =
      (Raise e, s', [SignalSignal SIGTERM; RunnerRaised e]).
Proof.
  intros Hsetup. unfold start; unfold_monad; simpl.
  destruct (setup (runner s)) as [[e'|[]] rn]; simpl in *; [|discriminate].
  injection Hsetup as ->. eexists. reflexivity.
Qed.

(** *** Reading a new entry *)

(** X6.  When nothing is reclaimed, [receive_message] takes the first
    entry of the first stream of the reply of [xreadgroup]: it returns
    the decoded id and the decoded field [value] of that entry; an
    entry without a field [value] gives a [KeyError], and the iteration
    then only logs it: nothing is pushed, acked or deleted. *)
Theorem fresh_entry_read fuel stream key fields entries streams more (s : St) :
  reclaims (next_reply (autoclaim_replies s)) = false ->
  readgroup_replies s = ((stream, (key, fields) :: entries) :: streams) :: more ->
  (forall key' value value',
     decode key = inr key' -> assoc "value" fields = Some value ->
     decode value = inr value' ->
     (receive_message self s).1.1 = Ok (Some (key', value'))) /\
  (forall key',
     decode key = inr key' -> assoc "value" fields = None ->
     (receive_message self s).1.1 = Raise (KeyError "value") /\
     (loop_body self fuel s).1.1 = Ok tt /\
     pushed (loop_body self fuel s).2 = [] /\
     acked (loop_body self fuel s).2 = [] /\
     deleted (loop_body self fuel s).2 = []).
Proof.
  intros Hrec Hread.
  split.
  - intros key' value value' Hk Hv Hv'.
    unfold receive_message, execute_xautoclaim, xreadgroup; unfold_monad.
    destruct (autoclaim_replies s) as [|[|[[? ?]|] ?] ?]; simpl in *;
      try discriminate; rewrite Hread; simpl; rewrite Hk; simpl; rewrite Hv; simpl;
      rewrite Hv'; reflexivity.
  - intros key' Hk Hv.
    unfold loop_body, receive_message, execute_xautoclaim, xreadgroup; unfold_monad.
    destruct (autoclaim_replies s) as [|[|[[? ?]|] ?] ?]; simpl in *;
      try discriminate; rewrite Hread; simpl; rewrite Hk; simpl; rewrite Hv; simpl;
      auto.
Qed.

(** *** What the driver leaves of the state *)

Lemma deleted_app (a b : list Ev) : deleted (a ++ b) = deleted a ++ deleted b.
Proof.
  induction a as [|e a IH]; simpl; [reflexivity|].
  destruct e; simpl; rewrite ?IH; reflexivity.
Qed.

Lemma runs_app (a b : list Ev) : runs (a ++ b) = runs a ++ runs b.
Proof.
  induction a as [|e a IH]; simpl; [reflexivity|].
  destruct e as [| | | | | | | | |[]| |]; simpl; rewrite ?IH; reflexivity.
Qed.

Lemma setups_app (a b : list Ev) : setups (a ++ b) = setups a + setups b.
Proof.
  induction a as [|e a IH]; simpl; [reflexivity|].
  destruct e as [| | | | | | | | |[]| |]; simpl; rewrite ?IH; reflexivity.
Qed.

Lemma cleaned_app (a b : list Ev) : cleaned (a ++ b) = cleaned a ++ cleaned b.
Proof.
  induction a as [|e a IH]; simpl; [reflexivity|].
  destruct e; simpl; rewrite ?IH; reflexivity.
Qed.

Lemma mode_quiet q (o : list Ev) :
  Forall (mode_event q) o -> runs o = [] /\ Forall (job_event q) o.
Proof.
  induction 1 as [|e o He _ [IH1 IH2]]; [split; constructor|].
  destruct e as [| | | | | | | | |[]| |]; simpl in *; try contradiction;
    split; auto; constructor; simpl; auto.
Qed.

Ltac kept := unfold keeps in *; simpl in *; intuition congruence.

Ltac use_keeps H x :=
  let Hx := fresh "Hk" in
  pose proof H as Hx; destruct x as [[? ?] ?]; unfold keeps in Hx; simpl in *.

Lemma logs_until_output_keeps fuel q logs (s : St) :
  keeps s (logs_until_output fuel q logs s).
Proof.
  revert logs s. induction fuel as [|fuel IH]; intros logs s; simpl; unfold_monad;
    [kept|]; simpl.
  repeat innermost ltac:(fun x =>
    lazymatch x with
    | logs_until_output ?f ?q ?l ?s => use_keeps (IH l s) x
    | _ => split_on x
    end);
  kept.
Qed.

Lemma logs_until_done_keeps fuel q logs (s : St) :
  keeps s (logs_until_done fuel q logs s).
Proof.
  revert logs s. induction fuel as [|fuel IH]; intros logs s; simpl; unfold_monad;
    [kept|]; simpl.
  repeat innermost ltac:(fun x =>
    lazymatch x with
    | logs_until_done ?f ?q ?l ?s => use_keeps (IH l s) x
    | _ => split_on x
    end);
  kept.
Qed.

Lemma stream_output_keeps fuel q output logs (s : St) :
  keeps s (stream_output self fuel q output logs s).
Proof.
  revert output logs s. induction fuel as [|fuel IH]; intros output logs s; simpl;
    unfold_monad; [kept|]; simpl.
  repeat innermost ltac:(fun x =>
    lazymatch x with
    | stream_output _ ?f ?q ?o ?l ?s => use_keeps (IH o l s) x
    | encode_all _ ?vs ?s => rewrite (encode_all_lift vs s); unfold lift, ret, raise
    | _ => split_on x
    end);
  kept.
Qed.

Ltac keeping_with extra :=
  repeat innermost ltac:(fun x =>
    first
      [ extra x
      | lazymatch x with
        | logs_until_output ?f ?q ?l ?s => use_keeps (logs_until_output_keeps f q l s) x
        | logs_until_done ?f ?q ?l ?s => use_keeps (logs_until_done_keeps f q l s) x
        | stream_output _ ?f ?q ?o ?l ?s => use_keeps (stream_output_keeps f q o l s) x
        | encode_all _ ?vs ?s => rewrite (encode_all_lift vs s); unfold lift, ret, raise
        end
      | split_on x ]);
  simplify_eq.

Lemma scalar_mode_keeps fuel q logs (s : St) :
  keeps s (scalar_mode self fuel q logs s).
Proof.
  unfold scalar_mode, push_failed; unfold_monad; simpl.
  keeping_with ltac:(fun x => fail); kept.
Qed.

Lemma generator_mode_keeps fuel q logs (s : St) :
  keeps s (generator_mode self fuel q logs s).
Proof.
  unfold generator_mode, push_failed; unfold_monad; simpl.
  keeping_with ltac:(fun x => fail); kept.
Qed.

(** [predict] changes the runner only; [run] is called first, once,
    and nothing else it does is a call of [run] or [setup]. *)
Lemma predict_keeps fuel q input_obj (s : St) :
  keeps s (predict self fuel q input_obj s) /\
  Forall (job_event q) (predict self fuel q input_obj s).2 /\
  runs (predict self fuel q input_obj s).2 =
    match (run input_obj (runner s)).1 with
    | inr _ => [input_obj]
    | inl _ => []
    end.
Proof.
  unfold predict, push_failed; unfold_monad; simpl.
  keeping_with ltac:(fun x =>
    lazymatch x with
    | logs_until_output ?f ?q ?l ?s =>
        let Hp := fresh "Hp" in
        pose proof (logs_until_output_polled f q l s) as Hp;
        use_keeps (logs_until_output_keeps f q l s) x;
        unfold polled in Hp; simpl in Hp; destruct Hp as [Hp _];
        apply Forall_poll_mode, mode_quiet in Hp as [? ?]
    | scalar_mode _ ?f ?q ?l ?s =>
        let Hp := fresh "Hp" in
        pose proof (scalar_mode_driven f q l s) as Hp;
        use_keeps (scalar_mode_keeps f q l s) x;
        apply driven_events, mode_quiet in Hp as [? ?]
    | generator_mode _ ?f ?q ?l ?s =>
        let Hp := fresh "Hp" in
        pose proof (generator_mode_driven f q l s) as Hp;
        use_keeps (generator_mode_keeps f q l s) x;
        apply driven_events, mode_quiet in Hp as [? ?]
    end);
  (split; [kept|]); simpl;
  rewrite ?runs_app; simpl; rewrite ?runs_app; simpl;
  repeat match goal with H : runs _ = [] |- _ => rewrite H end;
  (split; [forall_events|reflexivity]).
Qed.

Lemma job_quiet q (o : list Ev) :
  Forall (job_event q) o ->
  setups o = 0 /\ cleaned o = [] /\ deleted o = [] /\
  Forall (capped self) o /\ Forall (on_input_queue self) o /\
  Forall (driver_event q) o.
Proof.
  induction 1 as [|e o He _ (? & ? & ? & ? & ? & ?)]; [split_and!; constructor|].
  destruct e as [| | | | | | | | |[]| |]; simpl in *; try contradiction;
    split_and!; auto; constructor; simpl; auto.
Qed.

(** What [handle_message] does to the state and to the runner: it
    never calls [setup]; when the input is valid it registers the
    cleanup of the input object, reads the clock once and calls [run]
    at most once, with that object; when it is not, it registers
    nothing and leaves the runner alone. *)
Lemma handle_message_keeps fuel q message (s : St) :
  Forall (job_event q) (handle_message self fuel q message s).2 /\
  should_exit (handle_message self fuel q message s).1.2 = should_exit s /\
  autoclaim_replies (handle_message self fuel q message s).1.2 = autoclaim_replies s /\
  readgroup_replies (handle_message self fuel q message s).1.2 = readgroup_replies s /\
  sigterm (handle_message self fuel q message s).1.2 = sigterm s /\
  match decoded message with
  | inr input_obj =>
      cleanup_functions (handle_message self fuel q message s).1.2 =
        cleanup_functions s ++ [input_obj] /\
      (runs (handle_message self fuel q message s).2 = [] \/
       runs (handle_message self fuel q message s).2 = [input_obj])
  | inl _ =>
      cleanup_functions (handle_message self fuel q message s).1.2 =
        cleanup_functions s /\
      runs (handle_message self fuel q message s).2 = [] /\
      runner (handle_message self fuel q message s).1.2 = runner s
  end.
Proof.
  unfold handle_message, decoded, push_error, with_timeout, timeout_enter, timeout_exit,
    handle_timeout, timeout_init; unfold_monad; simpl.
  destruct (getitem message "input") as [e|input]; simpl;
    [destruct e; simpl; split_and!; auto; forall_events|].
  destruct (kwargs input) as [e|arguments]; simpl;
    [destruct e; simpl; split_and!; auto; forall_events|].
  destruct (InputType arguments) as [e|input_obj]; simpl;
    [destruct e; simpl; split_and!; auto; forall_events|].
  repeat innermost ltac:(fun x =>
    lazymatch x with
    | predict _ ?f ?q ?i ?s =>
        let Hp := fresh "Hp" in
        pose proof (predict_keeps f q i s) as Hp;
        destruct x as [[? ?] ?]; unfold keeps in Hp; simpl in Hp;
        destruct Hp as ((? & ? & ? & ? & ? & ?) & ? & ?)
    | _ => split_on x
    end);
  simpl in *; rewrite ?runs_app; simpl; rewrite ?app_nil_r;
  repeat match goal with H : runs _ = _ |- _ => rewrite H end;
  split_and!; try congruence; try forall_events;
  try (destruct (run input_obj (runner s)).1; auto; fail); auto.
Qed.

Lemma run_cleanup_functions_trace (functions : list I) (s : St) :
  run_cleanup_functions functions s = (Ok tt, s, cleanup_trace functions).
Proof.
  induction functions as [|f functions IH]; simpl; [reflexivity|].
  unfold_monad; simpl. destruct (cleanup f) as [e|]; simpl; rewrite IH; reflexivity.
Qed.

Lemma cleanup_trace_events (functions : list I) :
  Forall cleanup_event (cleanup_trace functions) /\
  cleaned (cleanup_trace functions) = functions.
Proof.
  induction functions as [|f functions [IH1 IH2]]; simpl; [split; constructor|].
  destruct (cleanup f); simpl; rewrite IH2; split; auto; repeat constructor; auto.
Qed.

(** The whole of an iteration that received a well-formed message. *)
Lemma process_message_trace fuel message_id message_json message q (s : St) :
  json_loads message_json = inr message ->
  getitem message "response_queue" = inr q ->
  exists s' stats,
    process_message self fuel message_id message_json s =
      (match (handle_message self fuel q message (job_state s)).1.1 with
       | Spin => Spin
       | _ => Ok tt
       end, s',
       Stderr (ReceivedMessage (input_queue self)) ::
         (handle_message self fuel q message (job_state s)).2 ++
         after_job self q message_id (handle_message self fuel q message (job_state s)).1.1 ++
         stats ++
         match (handle_message self fuel q message (job_state s)).1.1 with
         | Spin => []
         | _ => cleanup_trace
                  (cleanup_functions (handle_message self fuel q message (job_state s)).1.2)
         end) /\
    should_exit s' = should_exit (handle_message self fuel q message (job_state s)).1.2 /\
    match (handle_message self fuel q message (job_state s)).1.1 with
    | Ok _ => exists d, stats =
        [Xadd (predict_time_queue self) d (stats_queue_length self); Stderr (RunTime d)]
    | _ => stats = []
    end.
Proof.
  intros Hjs Hq. unfold process_message, push_error; unfold_monad; simpl.
  rewrite Hjs; simpl. rewrite Hq; simpl. fold (job_state s).
  destruct (handle_message self fuel q message (job_state s)) as [[rh sh] oh].
  destruct rh as [[]|e|]; simpl; rewrite ?run_cleanup_functions_trace; simpl.
  - eexists _, _. split; [|split; [|eexists; reflexivity]].
    + rewrite <- !app_assoc. reflexivity.
    + reflexivity.
  - eexists _, []. split; [|split; reflexivity].
    rewrite <- !app_assoc. reflexivity.
  - eexists _, []. split; [|split; reflexivity]. rewrite !app_nil_r. reflexivity.
Qed.

Lemma cleanup_quiet (cl : list Ev) :
  Forall cleanup_event cl ->
  runs cl = [] /\ setups cl = 0 /\ deleted cl = [] /\
  Forall (capped self) cl /\ Forall (on_input_queue self) cl.
Proof.
  induction 1 as [|e cl He _ (? & ? & ? & ? & ?)]; [split_and!; constructor|].
  destruct e as [[]| | | | | | | | | | |]; simpl in *; try contradiction;
    split_and!; auto; constructor; simpl; auto.
Qed.

Lemma receive_quiet (o : list Ev) :
  Forall receive_event o ->
  runs o = [] /\ setups o = 0 /\ deleted o = [] /\ cleaned o = [].
Proof.
  induction 1 as [|e o He _ (? & ? & ? & ?)]; [split_and!; constructor|].
  destruct e; simpl in *; try contradiction; split_and!; auto.
Qed.

(** *** Cleanup *)

(** X7.  An iteration with a well-formed message that comes to an end
    returns normally and ends with the cleanup: the cleanup function of
    the input object is called exactly once when the input was valid,
    whether the job succeeded or failed, and after the ack; what the
    cleanup raises is written to stderr and goes no further; nothing is
    called when the input was not valid. *)
Theorem cleanup_called_once_after_ack fuel message_id message_json message q (s : St) :
  json_loads message_json = inr message ->
  getitem message "response_queue" = inr q ->
  (process_message self fuel message_id message_json s).1.1 <> Spin ->
  let registered :=
    match decoded message with
    | inr input_obj => [input_obj]
    | inl _ => []
    end in
  (process_message self fuel message_id message_json s).1.1 = Ok tt /\
  cleaned (process_message self fuel message_id message_json s).2 = registered /\
  exists before,
    (process_message self fuel message_id message_json s).2 =
      before ++ cleanup_trace registered /\
    cleaned before = [] /\ acked before = [message_id].
Proof.
  intros Hjs Hq Hns registered.
  destruct (process_message_trace fuel message_id message_json message q s Hjs Hq)
    as (s' & stats & Hp & _ & Hst).
  pose proof (handle_message_keeps fuel q message (job_state s))
    as (Hev & _ & _ & _ & _ & Hdec).
  rewrite Hp in Hns |- *. simpl in Hns |- *.
  destruct (handle_message self fuel q message (job_state s)) as [[rh sh] oh].
  simpl in *.
  destruct (job_quiet q oh Hev) as (_ & Hcl & _ & _ & _ & Hdr).
  destruct (driver_silent q oh Hdr) as (_ & Hack & _).
  assert (Hfs : cleanup_functions sh = registered).
  { unfold registered. destruct (decoded message); [apply Hdec|].
    destruct Hdec as [-> _]. reflexivity. }
  destruct (cleanup_trace_events registered) as [_ Hcr].
  destruct rh as [[]|e|]; [| |congruence]; rewrite Hfs.
  - destruct Hst as (d & ->). split; [reflexivity|].
    rewrite !cleaned_app, Hcl, Hcr. split; [reflexivity|].
    exists (Stderr (ReceivedMessage (input_queue self)) ::
              oh ++ after_job self q message_id (Ok tt) ++
              [Xadd (predict_time_queue self) d (stats_queue_length self);
               Stderr (RunTime d)]).
    split.
    + simpl. rewrite <- !app_assoc. reflexivity.
    + simpl. rewrite !cleaned_app, !acked_app, Hcl, Hack. auto.
  - subst stats. split; [reflexivity|].
    rewrite !cleaned_app, Hcl, Hcr. split; [reflexivity|].
    exists (Stderr (ReceivedMessage (input_queue self)) ::
              oh ++ after_job self q message_id (Raise e)).
    split.
    + simpl. rewrite <- !app_assoc. reflexivity.
    + simpl. rewrite !cleaned_app, !acked_app, Hcl, Hack. auto.
Qed.

(** X8.  In an iteration with a well-formed message [run] is called at
    most once, and only with the input object that the input decoded
    to; [setup] is never called. *)
Theorem run_called_at_most_once fuel message_id message_json message q (s : St) :
  json_loads message_json = inr message ->
  getitem message "response_queue" = inr q ->
  setups (process_message self fuel message_id message_json s).2 = 0 /\
  (runs (process_message self fuel message_id message_json s).2 = [] \/
   exists input_obj,
     decoded message = inr input_obj /\
     runs (process_message self fuel message_id message_json s).2 = [input_obj]).
Proof.
  intros Hjs Hq.
  destruct (process_message_trace fuel message_id message_json message q s Hjs Hq)
    as (s' & stats & Hp & _ & Hst).
  pose proof (handle_message_keeps fuel q message (job_state s))
    as (Hev & _ & _ & _ & _ & Hdec).
  rewrite Hp. simpl.
  destruct (handle_message self fuel q message (job_state s)) as [[rh sh] oh].
  simpl in *.
  destruct (job_quiet q oh Hev) as (Hset & _).
  assert (Htail : forall fs : list I,
    runs (after_job self q message_id rh ++ stats ++
          match rh with Spin => [] | _ => cleanup_trace fs end) = [] /\
    setups (after_job self q message_id rh ++ stats ++
            match rh with Spin => [] | _ => cleanup_trace fs end) = 0).
  { intros fs. destruct (cleanup_trace_events fs) as [Hc _].
    apply cleanup_quiet in Hc as (Hc1 & Hc2 & _).
    destruct rh as [[]|e|]; simpl.
    - destruct Hst as (d & ->). simpl. auto.
    - subst stats. simpl. auto.
    - subst stats. auto. }
  destruct (Htail (cleanup_functions sh)) as [Hr Hs].
  rewrite runs_app, setups_app, Hr, Hs, Hset, app_nil_r.
  split; [reflexivity|].
  destruct (decoded message) as [e|input_obj]; [left; apply Hdec|].
  destruct Hdec as [_ [H|H]]; [left; exact H|right; eauto].
Qed.

(** *** The alphabet of the loop *)

Lemma loop_body_forall (P : Ev -> Prop) fuel (s : St) :
  (forall e, receive_event e -> P e) ->
  (forall line, P (Stderr line)) ->
  (forall q e, job_event q e -> P e) ->
  (forall id, P (Xack (input_queue self) (input_queue self) id)) ->
  (forall id, P (Xdel (input_queue self) id)) ->
  (forall d, P (Xadd (predict_time_queue self) d (stats_queue_length self))) ->
  (forall e, cleanup_event e -> P e) ->
  Forall P (loop_body self fuel s).2.
Proof.
  intros Hrecv Hstderr Hjob Hack Hdel Hadd Hclean.
  unfold loop_body, try_except, bind.
  pose proof (receive_message_events s) as Hr.
  destruct (receive_message self s) as [[[[[message_id message_json]|]|e|] s1] o1];
    simpl in *;
    (assert (Ho1 : Forall P o1) by (eapply Forall_impl; [exact Hr|exact Hrecv]));
    [|rewrite ?app_nil_r; auto|apply Forall_app_2; auto; repeat constructor; auto|auto].
  assert (Hp : Forall P (process_message self fuel message_id message_json s1).2).
  { destruct (json_loads message_json) as [e|message] eqn:Hjs.
    { rewrite (process_message_unparsed _ _ _ e) by auto. constructor. }
    destruct (getitem message "response_queue") as [e|q] eqn:Hq.
    { rewrite (process_message_unparsed _ _ _ e) by eauto. constructor. }
    destruct (process_message_trace fuel message_id message_json message q s1 Hjs Hq)
      as (s' & stats & -> & _ & Hst).
    pose proof (handle_message_keeps fuel q message (job_state s1)) as (Hev & _).
    destruct (handle_message self fuel q message (job_state s1)) as [[rh sh] oh].
    simpl in *.
    assert (Hoh : Forall P oh) by (eapply Forall_impl; [exact Hev|apply Hjob]).
    assert (Hcl : Forall P (cleanup_trace (cleanup_functions sh))).
    { destruct (cleanup_trace_events (cleanup_functions sh)) as [Hc _].
      eapply Forall_impl; [exact Hc|exact Hclean]. }
    constructor; [apply Hstderr|]. apply Forall_app_2; [exact Hoh|].
    destruct rh as [[]|e|]; simpl.
    - destruct Hst as (d & ->). simpl. repeat (constructor; auto).
    - subst stats. simpl. repeat (constructor; auto).
      apply (Hjob q). reflexivity.
    - subst stats. constructor. }
  destruct (process_message self fuel message_id message_json s1) as [[[[]|e|] s2] o2];
    simpl in *; rewrite ?app_nil_r; repeat apply Forall_app_2; auto;
    repeat constructor; auto.
Qed.

Lemma worker_loop_forall (P : Ev -> Prop) iterations fuel (s : St) :
  (forall e, receive_event e -> P e) ->
  (forall line, P (Stderr line)) ->
  (forall q e, job_event q e -> P e) ->
  (forall id, P (Xack (input_queue self) (input_queue self) id)) ->
  (forall id, P (Xdel (input_queue self) id)) ->
  (forall d, P (Xadd (predict_time_queue self) d (stats_queue_length self))) ->
  (forall e, cleanup_event e -> P e) ->
  Forall P (worker_loop self iterations fuel s).2.
Proof.
  intros Hrecv Hstderr Hjob Hack Hdel Hadd Hclean. revert s.
  induction iterations as [|n IH]; intros s; [constructor|].
  simpl. unfold bind, deliver_sigterm, signal_exit, ret.
  assert (Hstep : forall s0 : St, should_exit s0 = false ->
    Forall P
      (match loop_body self fuel s0 with
       | (Ok a, s3, o1) =>
           let '(r, s4, o3) := worker_loop self n fuel s3 in (r, s4, o1 ++ o3)
       | (Raise e, s3, o1) => (Raise e, s3, o1)
       | (Spin, s3, o1) => (Spin, s3, o1)
       end).2).
  { intros s0 _.
    pose proof (loop_body_forall P fuel s0 Hrecv Hstderr Hjob Hack Hdel Hadd Hclean) as Hb.
    destruct (loop_body self fuel s0) as [[[[]|e|] s3] o1]; simpl in *; auto.
    specialize (IH s3). destruct (worker_loop self n fuel s3) as [[r s4] o3].
    simpl in *. apply Forall_app_2; assumption. }
  destruct (sigterm s) as [|[|] rest]; simpl.
  - destruct (should_exit s) eqn:Hex; simpl; [constructor|].
    specialize (Hstep s Hex).
    destruct (loop_body self fuel s) as [[[[]|e|] s3] o1]; simpl in *; auto.
    destruct (worker_loop self n fuel s3) as [[r s4] o3]. exact Hstep.
  - repeat constructor. apply Hstderr.
  - destruct (should_exit s) eqn:Hex; simpl; [constructor|].
    specialize (Hstep (set_sigterm rest s) Hex).
    destruct (loop_body self fuel (set_sigterm rest s)) as [[[[]|e|] s3] o1];
      simpl in *; auto.
    destruct (worker_loop self n fuel s3) as [[r s4] o3]. exact Hstep.
Qed.

Lemma start_forall (P : Ev -> Prop) iterations fuel (s : St) :
  (forall e, receive_event e -> P e) ->
  (forall line, P (Stderr line)) ->
  (forall q e, job_event q e -> P e) ->
  (forall id, P (Xack (input_queue self) (input_queue self) id)) ->
  (forall id, P (Xdel (input_queue self) id)) ->
  (forall d, P (Xadd (predict_time_queue self) d (stats_queue_length self))) ->
  (forall e, cleanup_event e -> P e) ->
  P (SignalSignal SIGTERM) ->
  P (Runner CSetup) ->
  (forall d, P (Xadd (setup_time_queue self) d (stats_queue_length self))) ->
  Forall P (start self iterations fuel s).2.
Proof.
  intros Hrecv Hstderr Hjob Hack Hdel Hadd Hclean Hsig Hcall Hsetup.
  unfold start; unfold_monad; simpl.
  destruct (setup (runner s)) as [[e|[]] rn]; simpl.
  { repeat constructor; auto. apply (Hjob JNull). exact Logic.I. }
  match goal with |- context [worker_loop self iterations fuel ?st] =>
    pose proof (worker_loop_forall P iterations fuel st Hrecv Hstderr Hjob Hack Hdel
                  Hadd Hclean) as Hw;
    destruct (worker_loop self iterations fuel st) as [[r s'] o]
  end.
  simpl in *. repeat (constructor; auto).
Qed.

(** *** The loop goes on *)




(** *** Shutdown *)

Lemma receive_message_should_exit (s : St) :
  should_exit (receive_message self s).1.2 = should_exit s.
Proof.
  unfold receive_message, execute_xautoclaim, xreadgroup; unfold_monad; simpl.
  repeat innermost split_on; reflexivity.
Qed.

Lemma process_message_should_exit fuel message_id message_json (s : St) :
  should_exit (process_message self fuel message_id message_json s).1.2 = should_exit s.
Proof.
  destruct (json_loads message_json) as [e|message] eqn:Hjs.
  { rewrite (process_message_unparsed _ _ _ e) by auto. reflexivity. }
  destruct (getitem message "response_queue") as [e|q] eqn:Hq.
  { rewrite (process_message_unparsed _ _ _ e) by eauto. reflexivity. }
  destruct (process_message_trace fuel message_id message_json message q s Hjs Hq)
    as (s' & stats & Hp & Hs & _).
  rewrite Hp. simpl. rewrite Hs.
  pose proof (handle_message_keeps fuel q message (job_state s)) as (_ & He & _).
  rewrite He. reflexivity.
Qed.

Lemma loop_body_should_exit fuel (s : St) :
  should_exit (loop_body self fuel s).1.2 = should_exit s.
Proof.
  unfold loop_body, try_except, bind, stderr_write, emit.
  pose proof (receive_message_should_exit s) as Hr.
  destruct (receive_message self s) as [[[[[message_id message_json]|]|e'|] s1] o1];
    simpl in *; try exact Hr.
  pose proof (process_message_should_exit fuel message_id message_json s1) as Hp.
  destruct (process_message self fuel message_id message_json s1) as [[[[]|e'|] s2] o2];
    simpl in *; congruence.
Qed.

(** X10.  Shutdown.  The loop returns only with [should_exit] set; no
    iteration clears the flag; and once the flag is set, or SIGTERM has
    arrived, the loop returns at its next check without asking the
    stream service for anything and without calling the predictor. *)
Theorem graceful_shutdown fuel (s : St) :
  (forall iterations,
     (worker_loop self iterations fuel s).1.1 = Ok tt ->
     should_exit (worker_loop self iterations fuel s).1.2 = true) /\
  should_exit (loop_body self fuel s).1.2 = should_exit s /\
  (forall n,
     should_exit s = true \/ (exists rest, sigterm s = true :: rest) ->
     (worker_loop self (S n) fuel s).1.1 = Ok tt /\
     commands (worker_loop self (S n) fuel s).2 = [] /\
     runs (worker_loop self (S n) fuel s).2 = []).
Proof.
  split; [|split; [apply loop_body_should_exit|]].
  - intros iterations. revert s.
    induction iterations as [|n IH]; intros s; [discriminate|].
    simpl. unfold bind, deliver_sigterm, signal_exit, ret.
    assert (Hstep : forall s0 : St,
      let x := match loop_body self fuel s0 with
               | (Ok a, s3, o1) =>
                   let '(r, s4, o3) := worker_loop self n fuel s3 in (r, s4, o1 ++ o3)
               | (Raise e, s3, o1) => (Raise e, s3, o1)
               | (Spin, s3, o1) => (Spin, s3, o1)
               end in
      x.1.1 = Ok tt -> should_exit x.1.2 = true).
    { intros s0. destruct (loop_body self fuel s0) as [[[[]|e'|] s3] o1]; simpl;
        try discriminate.
      specialize (IH s3). destruct (worker_loop self n fuel s3) as [[r s4] o3].
      exact IH. }
    destruct (sigterm s) as [|[|] rest]; simpl.
    + destruct (should_exit s) eqn:Hex; simpl; [auto|].
      specialize (Hstep s).
      destruct (loop_body self fuel s) as [[[[]|e'|] s3] o1]; simpl in *; auto.
      destruct (worker_loop self n fuel s3) as [[r s4] o3]. exact Hstep.
    + reflexivity.
    + destruct (should_exit s) eqn:Hex; simpl; [auto|].
      specialize (Hstep (set_sigterm rest s)).
      destruct (loop_body self fuel (set_sigterm rest s)) as [[[[]|e'|] s3] o1];
        simpl in *; auto.
      destruct (worker_loop self n fuel s3) as [[r s4] o3]. exact Hstep.
  - intros n Hstop. simpl. unfold bind, deliver_sigterm, signal_exit, ret.
    destruct Hstop as [Hex|(rest & Hsig)].
    + destruct (sigterm s) as [|[|] rest]; simpl; rewrite ?Hex; simpl; auto.
    + rewrite Hsig. simpl. auto.
Qed.

(** *** Acks *)

Lemma loop_body_acks fuel (s : St) :
  acked (loop_body self fuel s).2 = deleted (loop_body self fuel s).2 /\
  ((loop_body self fuel s).1.1 <> Spin ->
   (pushed (loop_body self fuel s).2 = [] /\ acked (loop_body self fuel s).2 = []) \/
   exists message_id message_json t,
     (receive_message self s).1.1 = Ok (Some (message_id, message_json)) /\
     acked (loop_body self fuel s).2 = [message_id] /\
     last (pushed (loop_body self fuel s).2) = Some t /\ is_terminal t = true).
Proof.
  unfold loop_body, try_except, bind, stderr_write, emit.
  pose proof (receive_message_events s) as Hr.
  destruct (receive_message self s) as [[[[[message_id message_json]|]|e'|] s1] o1];
    simpl in *;
    destruct (receive_silent _ Hr) as (Hp1 & Ha1 & _);
    destruct (receive_quiet _ Hr) as (_ & _ & Hd1 & _);
    rewrite ?acked_app, ?deleted_app, ?pushed_app, ?Hp1, ?Ha1, ?Hd1; simpl; auto.
  destruct (json_loads message_json) as [e|message] eqn:Hjs.
  { rewrite (process_message_unparsed _ _ _ e) by auto. simpl.
    rewrite ?acked_app, ?deleted_app, ?pushed_app, ?Hp1, ?Ha1, ?Hd1. simpl. auto. }
  destruct (getitem message "response_queue") as [e|q] eqn:Hq.
  { rewrite (process_message_unparsed _ _ _ e) by eauto. simpl.
    rewrite ?acked_app, ?deleted_app, ?pushed_app, ?Hp1, ?Ha1, ?Hd1. simpl. auto. }
  destruct (process_message_trace fuel message_id message_json message q s1 Hjs Hq)
    as (s' & stats & Hp & _ & Hst).
  pose proof (handle_message_keeps fuel q message (job_state s1)) as (Hev & _).
  pose proof (handle_message_driven fuel q message (job_state s1)) as Hd.
  rewrite Hp. clear Hp.
  destruct (handle_message self fuel q message (job_state s1)) as [[rh sh] oh].
  simpl in *.
  destruct (job_quiet q oh Hev) as (_ & _ & Hdo & _ & _ & Hdr).
  destruct (driver_silent q oh Hdr) as (_ & Hao & _).
  destruct (cleanup_trace_events (cleanup_functions sh)) as [Hc _].
  destruct (cleanup_silent _ Hc) as (Hc1 & _ & Hc3 & _).
  destruct (cleanup_quiet _ Hc) as (_ & _ & Hc4 & _).
  destruct Hd as [_ Hd].
  destruct rh as [[]|e|]; simpl.
  - destruct Hst as (d & ->). simpl.
    repeat first [rewrite acked_app | rewrite deleted_app | rewrite pushed_app
                 | rewrite Hp1 | rewrite Ha1 | rewrite Hd1 | rewrite Hao | rewrite Hdo
                 | rewrite Hc1 | rewrite Hc3 | rewrite Hc4 | progress simpl].
    split; [reflexivity|]. intros _. right.
    destruct Hd as (pre & t & l & -> & _ & [Ht _] & _).
    exists message_id, message_json, t. rewrite app_nil_r, last_snoc. auto.
  - subst stats. simpl.
    repeat first [rewrite acked_app | rewrite deleted_app | rewrite pushed_app
                 | rewrite Hp1 | rewrite Ha1 | rewrite Hd1 | rewrite Hao | rewrite Hdo
                 | rewrite Hc1 | rewrite Hc3 | rewrite Hc4 | progress simpl].
    split; [reflexivity|]. intros _. right.
    exists message_id, message_json, (ErrorFrame (str e)). rewrite last_snoc. auto.
  - subst stats. simpl.
    repeat first [rewrite acked_app | rewrite deleted_app | rewrite pushed_app
                 | rewrite Hp1 | rewrite Ha1 | rewrite Hd1 | rewrite Hao | rewrite Hdo
                 | progress simpl].
    split; [reflexivity|]. intros H. congruence.
Qed.

(** X11.  An iteration that comes to an end acks a message exactly
    when it pushed a terminal frame for it: either nothing is pushed
    and nothing is acked or deleted, or the one message that
    [receive_message] returned is acked and deleted and the last frame
    pushed is terminal. *)
Theorem ack_iff_terminal_frame fuel (s : St) :
  (loop_body self fuel s).1.1 <> Spin ->
  (pushed (loop_body self fuel s).2 = [] /\
   acked (loop_body self fuel s).2 = [] /\
   deleted (loop_body self fuel s).2 = []) \/
  exists message_id message_json t,
    (receive_message self s).1.1 = Ok (Some (message_id, message_json)) /\
    acked (loop_body self fuel s).2 = [message_id] /\
    deleted (loop_body self fuel s).2 = [message_id] /\
    last (pushed (loop_body self fuel s).2) = Some t /\ is_terminal t = true.
Proof.
  intros Hns. destruct (loop_body_acks fuel s) as [Had H].
  destruct (H Hns) as [[Hp Ha]|(message_id & message_json & t & Hr & Ha & Hl & Ht)].
  - left. rewrite <- Had. auto.
  - right. exists message_id, message_json, t. rewrite <- Had. auto.
Qed.

Lemma worker_loop_acks iterations fuel (s : St) :
  acked (worker_loop self iterations fuel s).2 =
  deleted (worker_loop self iterations fuel s).2.
Proof.
  revert s. induction iterations as [|n IH]; intros s; [reflexivity|].
  simpl. unfold bind, deliver_sigterm, signal_exit, ret.
  assert (Hstep : forall s0 : St,
    let x := match loop_body self fuel s0 with
             | (Ok a, s3, o1) =>
                 let '(r, s4, o3) := worker_loop self n fuel s3 in (r, s4, o1 ++ o3)
             | (Raise e, s3, o1) => (Raise e, s3, o1)
             | (Spin, s3, o1) => (Spin, s3, o1)
             end in
    acked x.2 = deleted x.2).
  { intros s0. destruct (loop_body_acks fuel s0) as [Hb _].
    destruct (loop_body self fuel s0) as [[[[]|e'|] s3] o1]; simpl in *; auto.
    specialize (IH s3). destruct (worker_loop self n fuel s3) as [[r s4] o3].
    simpl in *. rewrite acked_app, deleted_app. congruence. }
  destruct (sigterm s) as [|[|] rest]; simpl.
  - destruct (should_exit s); simpl; [reflexivity|].
    specialize (Hstep s).
    destruct (loop_body self fuel s) as [[[[]|e'|] s3] o1]; simpl in *; auto.
    destruct (worker_loop self n fuel s3) as [[r s4] o3]. exact Hstep.
  - reflexivity.
  - destruct (should_exit s); simpl; [reflexivity|].
    specialize (Hstep (set_sigterm rest s)).
    destruct (loop_body self fuel (set_sigterm rest s)) as [[[[]|e'|] s3] o1];
      simpl in *; auto.
    destruct (worker_loop self n fuel s3) as [[r s4] o3]. exact Hstep.
Qed.

(** X12.  Over a whole run of the worker, the messages deleted are the
    messages acked, in the same order, and every ack and delete is sent
    for the input queue of the worker. *)
Theorem acked_messages_are_deleted iterations fuel (s : St) :
  acked (start self iterations fuel s).2 = deleted (start self iterations fuel s).2 /\
  Forall (on_input_queue self) (start self iterations fuel s).2.
Proof.
  split.
  - unfold start; unfold_monad; simpl.
    destruct (setup (runner s)) as [[e|[]] rn]; simpl; [reflexivity|].
    match goal with |- context [worker_loop self iterations fuel ?st] =>
      pose proof (worker_loop_acks iterations fuel st) as Hw;
      destruct (worker_loop self iterations fuel st) as [[r s'] o]
    end.
    exact Hw.
  - apply start_forall; simpl; auto.
    + intros [] He; simpl in *; try contradiction; auto.
    + intros q e He.
      destruct e as [| | | | | | | | |[]| |]; simpl in *; try contradiction; auto.
    + intros e He. destruct e; simpl in *; try contradiction; auto.
Qed.

(** X13.  Over a whole run of the worker in which [setup] returned,
    [setup] was called exactly once. *)
Theorem setup_called_once iterations fuel (s : St) :
  (setup (runner s)).1 = inr tt ->
  setups (start self iterations fuel s).2 = 1.
Proof.
  intros Hsetup.
  assert (Hloop : forall st : St, setups (worker_loop self iterations fuel st).2 = 0).
  { intros st.
    assert (H : Forall (fun e : Ev => e <> Runner CSetup)
                  (worker_loop self iterations fuel st).2).
    { apply worker_loop_forall; try discriminate.
      - intros [] He; simpl in *; try contradiction; discriminate.
      - intros q [| | | | | | | | |[]| |] He; simpl in *; try contradiction;
          discriminate.
      - intros [] He; simpl in *; try contradiction; discriminate. }
    induction H as [|e o He _ IH]; [reflexivity|].
    destruct e as [| | | | | | | | |[]| |]; simpl; auto. congruence. }
  unfold start; unfold_monad; simpl.
  destruct (setup (runner s)) as [[e|[]] rn]; simpl in *; [discriminate|].
  match goal with |- context [worker_loop self iterations fuel ?st] =>
    specialize (Hloop st);
    destruct (worker_loop self iterations fuel st) as [[r s'] o]
  end.
  simpl in *. rewrite Hloop. reflexivity.
Qed.

Lemma start_capped iterations fuel (s : St) :
  Forall (capped self) (start self iterations fuel s).2.
Proof.
  apply start_forall; simpl; auto.
  - intros [] He; simpl in *; try contradiction; auto.
  - intros q e He.
    destruct e as [| | | | | | | | |[]| |]; simpl in *; try contradiction; auto.
  - intros e He. destruct e; simpl in *; try contradiction; auto.
Qed.

(** *** What a response carries *)

Lemma lines_read_app (a b : list Ev) : lines_read (a ++ b) = lines_read a ++ lines_read b.
Proof.
  induction a as [|e a IH]; simpl; [reflexivity|].
  destruct e as [| | | | | | | | |[]| |]; simpl; rewrite ?IH, ?app_assoc; reflexivity.
Qed.

Lemma values_read_app (a b : list Ev) :
  values_read (a ++ b) = values_read a ++ values_read b.
Proof.
  induction a as [|e a IH]; simpl; [reflexivity|].
  destruct e as [| | | | | | | | |[]| |]; simpl; rewrite ?IH, ?app_assoc; reflexivity.
Qed.

Lemma alarms_app (a b : list Ev) : alarms (a ++ b) = alarms a ++ alarms b.
Proof.
  induction a as [|e a IH]; simpl; [reflexivity|].
  destruct e; simpl; rewrite ?IH; reflexivity.
Qed.















(** *** The alarm *)

Lemma mode_alarms q (o : list Ev) : Forall (mode_event q) o -> alarms o = [].
Proof.
  induction 1 as [|e o He _ IH]; [reflexivity|].
  destruct e as [| | | | | | | | |[]| |]; simpl in *; try contradiction; auto.
Qed.

Lemma predict_alarms fuel q input_obj (s : St) :
  alarms (predict self fuel q input_obj s).2 = [].
Proof.
  unfold predict, push_failed; unfold_monad; simpl.
  repeat innermost ltac:(fun x =>
    lazymatch x with
    | logs_until_output ?f ?q ?l ?s =>
        let Hp := fresh "Hp" in
        pose proof (logs_until_output_polled f q l s) as Hp;
        destruct x as [[? ?] ?];
        unfold polled in Hp; simpl in Hp; destruct Hp as [Hp _];
        apply Forall_poll_mode, mode_alarms in Hp
    | scalar_mode _ ?f ?q ?l ?s =>
        let Hp := fresh "Hp" in
        pose proof (scalar_mode_driven f q l s) as Hp;
        destruct x as [[? ?] ?];
        apply driven_events, mode_alarms in Hp
    | generator_mode _ ?f ?q ?l ?s =>
        let Hp := fresh "Hp" in
        pose proof (generator_mode_driven f q l s) as Hp;
        destruct x as [[? ?] ?];
        apply driven_events, mode_alarms in Hp
    | _ => split_on x
    end);
  simpl in *; rewrite ?alarms_app; simpl; rewrite ?alarms_app; simpl;
  repeat match goal with H : alarms _ = [] |- _ => rewrite H end;
  reflexivity.
Qed.

Lemma handle_message_alarms fuel q message (s : St) :
  (handle_message self fuel q message s).1.1 <> Spin ->
  alarms (handle_message self fuel q message s).2 =
    match predict_timeout self, decoded message with
    | Some secs, inr _ => if (0 <? secs)%Z then [secs; 0%Z] else []
    | _, _ => []
    end.
Proof.
  unfold handle_message, decoded, push_error, with_timeout, timeout_enter, timeout_exit,
    handle_timeout, timeout_init; unfold_monad; simpl.
  destruct (getitem message "input") as [e|input]; simpl;
    [destruct e, (predict_timeout self); reflexivity|].
  destruct (kwargs input) as [e|arguments]; simpl;
    [destruct e, (predict_timeout self); reflexivity|].
  destruct (InputType arguments) as [e|input_obj]; simpl;
    [destruct e, (predict_timeout self); reflexivity|].
  destruct (predict_timeout self) as [secs|]; simpl.
  - rewrite Z.ltb_antisym. destruct (secs <=? 0)%Z; simpl; [reflexivity|].
    match goal with |- context [predict self fuel q input_obj ?st] =>
      pose proof (predict_alarms fuel q input_obj st) as Hp;
      destruct (predict self fuel q input_obj st) as [[[[]|e|] s'] o]
    end; simpl in *; rewrite ?alarms_app, ?Hp; simpl; congruence.
  - match goal with |- context [predict self fuel q input_obj ?st] =>
      pose proof (predict_alarms fuel q input_obj st) as Hp;
      destruct (predict self fuel q input_obj st) as [[[[]|e|] s'] o]
    end; simpl in *; rewrite ?app_nil_r, ?Hp; simpl; congruence.
Qed.

(** X15.  The alarm of a job.  Without [predict_timeout], or when the
    input is rejected, [handle_message] never touches the alarm.  With
    a positive [predict_timeout] and a valid input, it arms the alarm
    once, with [predict_timeout] seconds, and cancels it once, last of
    all, on every way out: return, error of the runner, exception. *)
Theorem alarm_armed_then_cancelled fuel q message (s : St) :
  (handle_message self fuel q message s).1.1 <> Spin ->
  alarms (handle_message self fuel q message s).2 =
    match predict_timeout self, decoded message with
    | Some secs, inr _ => if (0 <? secs)%Z then [secs; 0%Z] else []
    | _, _ => []
    end.
Proof. apply handle_message_alarms. Qed.

End Properties.

(** ** The worker that [__init__] builds *)

Section Constructed.

Context {R I V : Type} `{!PredictionRunner R I V} `{!Helpers I V}.
Variable a : Args.

Abbreviation Ev := (@Event I V).
Abbreviation St := (@State R I).

Lemma append_inj (p x y : string) : (p ++ x)%string = (p ++ y)%string -> x = y.
Proof. induction p as [|c p IH]; simpl; [auto|]. intros [= H]. auto. Qed.

Lemma timing_queues_differ : setup_time_queue (init a) <> predict_time_queue (init a).
Proof. simpl. intros H. apply append_inj in H. discriminate H. Qed.

(** C5, as amended.  [start] adds exactly one entry to the setup-time
    stream, once [setup] has returned, however long the loop runs; an
    iteration with a well-formed message adds exactly one entry to the
    run-time stream when [handle_message] returns (the job succeeded,
    or failed by a validation error or by an error that the runner
    reported) and none when [handle_message] raises. *)
Theorem timing_entries :
  (forall iterations fuel (s : St),
     (setup (runner s)).1 = inr tt ->
     length (appended (setup_time_queue (init a))
               (start (init a) iterations fuel s).2) = 1) /\
  (forall fuel message_id message_json message q (s : St),
     json_loads message_json = inr message ->
     getitem message "response_queue" = inr (JStr q) ->
     length (appended (predict_time_queue (init a))
               (process_message (init a) fuel message_id message_json s).2) =
       match (handle_message (init a) fuel (JStr q) message (job_state s)).1.1 with
       | Ok _ => 1
       | _ => 0
       end).
Proof.
  split.
  - intros iterations fuel s Hsetup.
    apply start_appended_setup; [apply timing_queues_differ|exact Hsetup].
  - intros fuel message_id message_json message q s Hjs Hq.
    destruct (handle_message (init a) fuel (JStr q) message (job_state s))
      as [[rh sh] oh] eqn:Hh.
    apply (job_stats (init a) fuel message_id message_json message (JStr q) s rh sh oh);
      assumption.
Qed.

(** C7.  [receive_message] first sends XAUTOCLAIM for at most one
    entry idle for 600000 ms (10 minutes); when that reply hands over
    an entry nothing else is sent; otherwise it sends one XREADGROUP
    for one new entry, blocking at most 1000 ms, and returns [None]
    when that reply is empty too. *)
Theorem receive_reclaims_then_reads (s : St) :
  let claim : Ev :=
    Xautoclaim (arg_input_queue a) (arg_input_queue a) (arg_consumer_id a)
      "600000" "0-0" 1 in
  let read : Ev :=
    Xreadgroup (arg_input_queue a) (arg_consumer_id a) (arg_input_queue a)
      ">" 1 1000 in
  (max_processing_time (init a) * 1000 = 10 * 60 * 1000)%Z /\
  let '(r, _, out) := receive_message (init a) s in
  if reclaims (next_reply (autoclaim_replies s))
  then out = [claim]
  else out = [claim; read] /\ (next_reply (readgroup_replies s) = [] -> r = Ok None).
Proof.
  split; [reflexivity|].
  unfold receive_message, execute_xautoclaim, xreadgroup; unfold_monad; simpl.
  change (str_int 600000) with "600000".
  destruct (autoclaim_replies s) as [|[|[[key fields]|] rest] more]; simpl.
  - destruct (readgroup_replies s) as [|reply more']; simpl; [auto|].
    repeat innermost split_on; simplify_eq; split; auto; discriminate.
  - destruct (readgroup_replies s) as [|reply more']; simpl; [auto|].
    repeat innermost split_on; simplify_eq; split; auto; discriminate.
  - repeat innermost split_on; reflexivity.
  - destruct (readgroup_replies s) as [|reply more']; simpl; [auto|].
    repeat innermost split_on; simplify_eq; split; auto; discriminate.
Qed.

(** C8.  [model_id] is stored by [__init__] and no method reads it:
    two workers built from arguments that differ in [model_id] only
    are the same computations, so from equal states and replies they
    end in the same way, in the same state, with the same trace. *)
Theorem model_id_is_never_read (m : option string) :
  model_id (init (with_model_id a m)) = m /\
  @receive_message R I V _ (init (with_model_id a m)) = receive_message (init a) /\
  @handle_message R I V _ _ (init (with_model_id a m)) = handle_message (init a) /\
  @process_message R I V _ _ (init (with_model_id a m)) = process_message (init a) /\
  @loop_body R I V _ _ (init (with_model_id a m)) = loop_body (init a) /\
  @worker_loop R I V _ _ (init (with_model_id a m)) = worker_loop (init a) /\
  @start R I V _ _ (init (with_model_id a m)) = start (init a).
Proof. repeat split. Qed.

Lemma append_not_self (p x : string) : x <> EmptyString -> (p ++ x)%string <> p.
Proof.
  intros Hx. induction p as [|c p IH]; simpl; [exact Hx|].
  intros [= H]. auto.
Qed.

(** X16.  Every entry that a worker adds to a stream in a whole run
    goes to its setup-time or to its run-time stream, with the stream
    capped at 100 entries; neither of them is the input queue. *)
Theorem timing_streams_capped iterations fuel (s : St) stream d maxlen :
  Xadd stream d maxlen ∈ (start (init a) iterations fuel s).2 ->
  maxlen = 100%Z /\
  (stream = (arg_input_queue a ++ "-setup-time")%string \/
   stream = (arg_input_queue a ++ "-run-time")%string) /\
  stream <> arg_input_queue a.
Proof.
  intros Hin.
  pose proof (start_capped (init a) iterations fuel s) as Hc.
  rewrite Forall_forall in Hc. apply Hc in Hin. simpl in Hin.
  destruct Hin as [-> Hs]. split; [reflexivity|]. split; [exact Hs|].
  destruct Hs as [-> | ->]; apply append_not_self; discriminate.
Qed.

(** X17.  [log_queue] is stored by [__init__] and no method reads it:
    two workers built from arguments that differ in [log_queue] only
    are the same computations. *)
Theorem log_queue_is_never_read (l : option string) :
  log_queue (init (with_log_queue a l)) = l /\
  @receive_message R I V _ (init (with_log_queue a l)) = receive_message (init a) /\
  @handle_message R I V _ _ (init (with_log_queue a l)) = handle_message (init a) /\
  @process_message R I V _ _ (init (with_log_queue a l)) = process_message (init a) /\
  @loop_body R I V _ _ (init (with_log_queue a l)) = loop_body (init a) /\
  @worker_loop R I V _ _ (init (with_log_queue a l)) = worker_loop (init a) /\
  @start R I V _ _ (init (with_log_queue a l)) = start (init a).
Proof. repeat split. Qed.

(** X18.  A worker built by [_queue_worker_from_argv] times its jobs
    by the optional last argument: without it no job touches the
    alarm; with it, a job with a valid input arms the alarm with the
    integer the argument stands for, when that is positive, and cancels
    it at the end. *)
Theorem argv_timeout_times_jobs (int : string -> Exn + Z)
    redis_host redis_port input_queue upload_url comsumer_id model_id log_queue
    predict_timeout w fuel q message (s : St) :
  _queue_worker_from_argv int redis_host redis_port input_queue upload_url comsumer_id
    model_id log_queue predict_timeout = inr w ->
  (handle_message w fuel q message s).1.1 <> Spin ->
  alarms (handle_message w fuel q message s).2 =
    match predict_timeout, decoded message with
    | Some t, inr _ =>
        match int t with
        | inr secs => if (0 <? secs)%Z then [secs; 0%Z] else []
        | inl _ => []
        end
    | _, _ => []
    end.
Proof.
  unfold _queue_worker_from_argv. intros Hw Hns.
  rewrite (handle_message_alarms w fuel q message s Hns).
  destruct predict_timeout as [t|]; [destruct (int t) as [e|secs]; [discriminate|]|];
    destruct (int redis_port) as [e'|port]; try discriminate;
    injection Hw as <-; reflexivity.
Qed.

End Constructed.

(** ** The scripted predictor: the claims on concrete runs *)

Section Runs.

Import Scripted.

#[local] Instance scripted_polls_bounded : PollsBounded rank.
Proof.
  split; unfold rank; simpl.
  - intros [[|[l o] rest] wl wo f g] r'; simpl; [discriminate|].
    intros [= <-]. simpl. lia.
  - intros [[|[l o] rest] wl wo f g]; simpl; lia.
  - intros r. lia.
  - intros r. lia.
  - intros r. lia.
  - intros r. lia.
  - intros r. lia.
  - intros r. lia.
Qed.



(** C3 on both kinds of message: the job of the silent predictor fails
    by an [AssertionError], and a payload without reply channel. *)
Lemma errors_reported_then_acked_witness :
  (exists before t after rest,
     (process_message (init (args None)) 5 "1-0" good_payload (idle silent)).2 =
       before ++ Rpush (JStr "reply") t :: after /\
     is_terminal t = true /\ acked before = [] /\ pushed after = [] /\
     commands after = Xack "queue" "queue" "1-0" :: Xdel "queue" "1-0" :: rest /\
     t = ErrorFrame (str AssertionError)) /\
  (exists s1 o1,
     loop_body (init (args None)) 5 (reclaiming ["value"; no_queue_payload]) =
       (Ok tt, s1, o1 ++ [Stderr (FailedToHandle (KeyError "response_queue"))]) /\
     acked (o1 ++ [Stderr (FailedToHandle (KeyError "response_queue"))]) = []).
Proof.
  split.
  - destruct (errors_reported_then_acked (init (args None)) rank 5 "1-0" good_payload
                (idle silent)) as [H _].
    destruct (H good_message "reply") as (before & t & after & rest & H1 & H2 & H3 & H4 & H5 & H6 & _).
    + reflexivity.
    + reflexivity.
    + intros input_obj. simpl. unfold rank. simpl. lia.
    + exists before, t, after, rest. split_and!; try assumption.
      apply H6. vm_compute. reflexivity.
  - destruct (errors_reported_then_acked (init (args None)) rank 5 "1-0" no_queue_payload
                (idle silent)) as [_ H].
    destruct (H (KeyError "response_queue") (reclaiming ["value"; no_queue_payload])
                (mkState worked false [] 0 [] [] [])
                [Xautoclaim "queue" "queue" "worker-1" "600000" "0-0" 1])
      as (H1 & H2 & _).
    + vm_compute. reflexivity.
    + right. exists no_queue_message. split; reflexivity.
    + eexists _, _. split; [exact H1|exact H2].
Defined.

(** C4 on the predictor that would return at once. *)
Lemma zero_timeout_fails_at_once_witness :
  exists s',
    process_message (init (args (Some 0%Z))) 5 "1-0" good_payload (idle worked) =
      (Ok tt, s',
       [Stderr (ReceivedMessage "queue");
        Stderr (PushingError (JStr "reply"));
        Rpush (JStr "reply") (ErrorFrame "Prediction timed out");
        Xack "queue" "queue" "1-0"; Xdel "queue" "1-0"; CleanupCalled 0%Z]) /\
    runner s' = worked.
Proof.
  destruct (zero_timeout_fails_at_once (init (args (Some 0%Z))) 5 "1-0" good_payload
              good_message "reply" (JObj [("sleep_time", JNum 0)])
              [("sleep_time", JNum 0)] 0%Z (idle worked))
    as (_ & s' & H1 & H2); try reflexivity.
  exists s'. split; [exact H1|exact H2].
Defined.

(** C5, as stated, fails on a job that times out: it ends with a
    terminal frame and is acked, and the run-time stream gets no
    entry. *)
Lemma no_run_time_entry_after_timeout :
  let out :=
    (process_message (init (args (Some 0%Z))) 5 "1-0" good_payload (idle worked)).2 in
  last (pushed out) = Some (ErrorFrame "Prediction timed out") /\
  acked out = ["1-0"] /\
  appended "queue-run-time" out = [] /\
  ~ run_time_entry_per_completed_job (init (args (Some 0%Z))) out.
Proof.
  cbv zeta. split_and!; try (vm_compute; reflexivity).
  intros H. unfold run_time_entry_per_completed_job in H.
  assert (Hn : length (appended (predict_time_queue (init (args (Some 0%Z))))
    (process_message (init (args (Some 0%Z))) 5 "1-0" good_payload (idle worked)).2) = 0)
    by (vm_compute; reflexivity).
  rewrite Hn in H. discriminate H.
  exists (ErrorFrame "Prediction timed out"). split; vm_compute; reflexivity.
Qed.

(** C5, as amended, on the worker that runs one job and on the two
    ways a job can end. *)
Lemma timing_entries_witness :
  length (appended "queue-setup-time"
            (start (init (args None)) 3 5
               (mkState worked false [] 0 []
                  [[("queue", [("2-0", [("value", good_payload)])])]] [])).2) = 1 /\
  length (appended "queue-run-time"
            (process_message (init (args None)) 5 "1-0" good_payload (idle worked)).2) = 1 /\
  length (appended "queue-run-time"
            (process_message (init (args (Some 0%Z))) 5 "1-0" good_payload
               (idle worked)).2) = 0.
Proof.
  split_and!.
  - apply (proj1 (timing_entries (args None))). reflexivity.
  - exact (proj2 (timing_entries (args None)) 5 "1-0" good_payload good_message "reply"
             (idle worked) eq_refl eq_refl).
  - exact (proj2 (timing_entries (args (Some 0%Z))) 5 "1-0" good_payload good_message
             "reply" (idle worked) eq_refl eq_refl).
Defined.

(** C6 on the scalar predictor that outputs nothing. *)
Lemma scalar_output_invariant_witness :
  (handle_message (init (args None)) 5 (JStr "reply") good_message
     (job_state (idle silent))).1.1 = Raise AssertionError /\
  last (pushed (process_message (init (args None)) 5 "1-0" good_payload
                  (idle silent)).2) = Some (ErrorFrame EmptyString).
Proof.
  pose proof (scalar_output_invariant (init (args None)) 5 "1-0" good_payload
                good_message "reply" [] (idle silent) eq_refl eq_refl) as H.
  destruct (handle_message (init (args None)) 5 (JStr "reply") good_message
              (job_state (idle silent))) as [[rh sh] oh].
  destruct (process_message (init (args None)) 5 "1-0" good_payload (idle silent))
    as [[r s'] out] eqn:Hp.
  assert (Hout : out = (process_message (init (args None)) 5 "1-0" good_payload
                          (idle silent)).2) by (rewrite Hp; reflexivity).
  vm_compute in Hout.
  destruct H as (_ & H & _).
  - rewrite Hout. repeat first [apply list_elem_of_here|apply list_elem_of_further].
  - rewrite Hout. repeat first [apply list_elem_of_here|apply list_elem_of_further].
  - destruct H as (H1 & H2 & _); [simpl; lia|]. split; [exact H1|exact H2].
Defined.

(** C9 on a reclaimed entry whose field is named ["valu"]. *)
Lemma reclaimed_entry_needs_value_field_witness :
  loop_body (init (args None)) 5 (reclaiming ["valu"; good_payload]) =
    (Ok tt, set_autoclaim_replies [] (reclaiming ["valu"; good_payload]),
     [Xautoclaim "queue" "queue" "worker-1" "600000" "0-0" 1;
      Stderr (FailedToHandle AssertionError)]).
Proof.
  destruct (reclaimed_entry_needs_value_field (init (args None)) 5 "1-0"
              ["valu"; good_payload] [] [] (reclaiming ["valu"; good_payload]) eq_refl)
    as [_ H].
  destruct (H "valu" [good_payload] eq_refl) as [_ H2]; [discriminate|].
  exact H2.
Defined.

(** C10 on the input [{"sleep_time": "x"}]. *)
Lemma invalid_input_leaves_state_witness :
  handle_message (init (args None)) 5 (JStr "reply") bad_input_message (idle worked) =
    (Ok tt, idle worked,
     [Stderr (Traceback (ValidationError "value is not a valid float"));
      Stderr (PushingError (JStr "reply"));
      Rpush (JStr "reply") (ErrorFrame "value is not a valid float")]).
Proof.
  apply (invalid_input_leaves_state (init (args None)) 5 (JStr "reply") bad_input_message
           (JObj [("sleep_time", JStr "x")]) [("sleep_time", JStr "x")]
           "value is not a valid float" (idle worked)); reflexivity.
Defined.

(** ** Further properties on concrete runs *)

(** A timeout of 5 seconds of which 7, and of which 2, have elapsed. *)
Lemma timeout_enter_raises_iff_elapsed_witness :
  (exists e,
     (@timeout_enter Predictor Z string (timeout_init (Some 5%Z) (Some 7%Z) "late")
        (idle worked)).1.1 = Raise e) /\
  @timeout_enter Predictor Z string (timeout_init (Some 5%Z) (Some 2%Z) "late")
    (idle worked) =
    (Ok tt, idle worked, [SignalSignal SIGALRM; SignalAlarm 3]).
Proof.
  split.
  - apply (proj2 (proj1 (@timeout_enter_raises_iff_elapsed Predictor Z string
                           (Some 5%Z) (Some 7%Z) "late" (idle worked)))).
    exists 5%Z. split; [reflexivity|simpl; lia].
  - apply (proj2 (proj2 (proj2 (@timeout_enter_raises_iff_elapsed Predictor Z string
                                  (Some 5%Z) (Some 2%Z) "late" (idle worked)))) 5%Z);
      [reflexivity|simpl; lia].
Defined.

(** The job of the predictor that returns at once, under a timeout of
    30 seconds. *)
Lemma alarm_cancelled_on_exit_witness :
  with_timeout (mkTimeout (Some 30%Z) "late")
    (predict (init (args None)) 5 (JStr "reply") 0%Z) (idle worked) =
    ((predict (init (args None)) 5 (JStr "reply") 0%Z (idle worked)).1.1,
     (predict (init (args None)) 5 (JStr "reply") 0%Z (idle worked)).1.2,
     [SignalSignal SIGALRM; SignalAlarm 30] ++
     (predict (init (args None)) 5 (JStr "reply") 0%Z (idle worked)).2 ++
     [SignalAlarm 0]).
Proof.
  apply (alarm_cancelled_on_exit 30 "late"
           (predict (init (args None)) 5 (JStr "reply") 0%Z) (idle worked)).
  - vm_compute. discriminate.
  - lia.
Defined.

(** A message without ["input"]. *)
Lemma decoding_error_reported_by_loop_witness :
  @process_message Predictor Z string runner_ops more_helpers (init (args None)) 5
    "1-0" no_input_payload (idle worked) =
    (Ok tt, job_state (idle worked),
     [Stderr (ReceivedMessage "queue");
      Stderr (PushingError (JStr "reply"));
      Rpush (JStr "reply") (ErrorFrame "'input'");
      Xack "queue" "queue" "1-0";
      Xdel "queue" "1-0"]).
Proof.
  apply (@decoding_error_reported_by_loop Predictor Z string runner_ops more_helpers
           (init (args None)) 5 "1-0" no_input_payload no_input_message (JStr "reply")
           (KeyError "input") (idle worked)).
  - reflexivity.
  - reflexivity.
  - left. reflexivity.
  - discriminate.
Defined.

(** The input [{"sleep_time": "x"}]. *)
Lemma validation_error_counts_as_run_witness :
  process_message (init (args None)) 5 "1-0" bad_input_payload (idle worked) =
    (Ok tt, set_clock_reads 2 (set_cleanup_functions [] (idle worked)),
     [Stderr (ReceivedMessage "queue");
      Stderr (Traceback (ValidationError "value is not a valid float"));
      Stderr (PushingError (JStr "reply"));
      Rpush (JStr "reply") (ErrorFrame "value is not a valid float");
      Xack "queue" "queue" "1-0";
      Xdel "queue" "1-0";
      Xadd "queue-run-time" 1 100;
      Stderr (RunTime 1)]).
Proof.
  exact (validation_error_counts_as_run (init (args None)) 5 "1-0" bad_input_payload
           bad_input_message (JStr "reply") (JObj [("sleep_time", JStr "x")])
           [("sleep_time", JStr "x")] "value is not a valid float" (idle worked)
           eq_refl eq_refl eq_refl eq_refl eq_refl).
Defined.

(** The runner whose [setup] fails. *)
Lemma start_fails_when_setup_fails_witness :
  exists s',
    @start Predictor Z string unready helpers (init (args None)) 3 5 (idle worked) =
      (Raise (OtherError "setup failed"), s',
       [SignalSignal SIGTERM; RunnerRaised (OtherError "setup failed")]).
Proof.
  apply (@start_fails_when_setup_fails Predictor Z string unready helpers
           (init (args None)) 3 5 (OtherError "setup failed") (idle worked)).
  reflexivity.
Defined.

(** A new entry with the field [value], and one without. *)
Lemma fresh_entry_read_witness :
  (receive_message (init (args None)) (fresh [("value", good_payload)] [])).1.1 =
    Ok (Some ("2-0", good_payload)) /\
  (receive_message (init (args None)) (fresh [("valu", good_payload)] [])).1.1 =
    Raise (KeyError "value").
Proof.
  split.
  - apply (proj1 (fresh_entry_read (init (args None)) 5 "queue" "2-0"
                    [("value", good_payload)] [] [] []
                    (fresh [("value", good_payload)] []) eq_refl eq_refl)
             "2-0" good_payload good_payload); reflexivity.
  - apply (proj2 (fresh_entry_read (init (args None)) 5 "queue" "2-0"
                    [("valu", good_payload)] [] [] []
                    (fresh [("valu", good_payload)] []) eq_refl eq_refl)
             "2-0"); reflexivity.
Defined.

(** The job of the silent predictor fails by an [AssertionError]; the
    cleanup of its input object is called all the same. *)
Lemma cleanup_called_once_after_ack_witness :
  (process_message (init (args None)) 5 "1-0" good_payload (idle silent)).1.1 = Ok tt /\
  cleaned (process_message (init (args None)) 5 "1-0" good_payload (idle silent)).2 =
    [0%Z].
Proof.
  destruct (cleanup_called_once_after_ack (init (args None)) 5 "1-0" good_payload
              good_message (JStr "reply") (idle silent)) as (H1 & H2 & _).
  - reflexivity.
  - reflexivity.
  - vm_compute. discriminate.
  - split; [exact H1|exact H2].
Defined.

(** The generator that yields three values. *)
Lemma run_called_at_most_once_witness :
  setups (process_message (init (args None)) 5 "1-0" good_payload (idle abc)).2 = 0 /\
  (runs (process_message (init (args None)) 5 "1-0" good_payload (idle abc)).2 = [] \/
   exists input_obj,
     @decoded Z string helpers good_message = inr input_obj /\
     runs (process_message (init (args None)) 5 "1-0" good_payload (idle abc)).2 =
       [input_obj]).
Proof.
  apply (run_called_at_most_once (init (args None)) 5 "1-0" good_payload good_message
           (JStr "reply") (idle abc)); reflexivity.
Defined.


(** SIGTERM arrives before the first check of the loop, with an entry
    waiting in the stream. *)
Lemma graceful_shutdown_witness :
  (worker_loop (init (args None)) 3 5 (fresh [("value", good_payload)] [true])).1.1 =
    Ok tt /\
  commands (worker_loop (init (args None)) 3 5
              (fresh [("value", good_payload)] [true])).2 = [] /\
  runs (worker_loop (init (args None)) 3 5
          (fresh [("value", good_payload)] [true])).2 = [].
Proof.
  apply (proj2 (proj2 (graceful_shutdown (init (args None)) 5
                         (fresh [("value", good_payload)] [true]))) 2).
  right. exists []. reflexivity.
Defined.

(** An iteration that reclaims a pending job. *)
Lemma ack_iff_terminal_frame_witness :
  let out := (loop_body (init (args None)) 5 (reclaiming ["value"; good_payload])).2 in
  (pushed out = [] /\ acked out = [] /\ deleted out = []) \/
  exists message_id message_json t,
    (receive_message (init (args None)) (reclaiming ["value"; good_payload])).1.1 =
      Ok (Some (message_id, message_json)) /\
    acked out = [message_id] /\ deleted out = [message_id] /\
    last (pushed out) = Some t /\ is_terminal t = true.
Proof.
  apply (ack_iff_terminal_frame (init (args None)) 5
           (reclaiming ["value"; good_payload])).
  vm_compute. discriminate.
Defined.

(** The worker that runs one job and is then told to stop. *)
Lemma setup_called_once_witness :
  setups (start (init (args None)) 3 5
            (fresh [("value", good_payload)] [false; true])).2 = 1.
Proof.
  apply (setup_called_once (init (args None)) 3 5
           (fresh [("value", good_payload)] [false; true])).
  reflexivity.
Defined.


(** The generator under a timeout of 30 seconds. *)
Lemma alarm_armed_then_cancelled_witness :
  alarms (handle_message (init (args (Some 30%Z))) 5 (JStr "reply") good_message
            (idle abc)).2 = [30%Z; 0%Z].
Proof.
  assert (Hns : (handle_message (init (args (Some 30%Z))) 5 (JStr "reply") good_message
                   (idle abc)).1.1 <> Spin) by (vm_compute; discriminate).
  exact (alarm_armed_then_cancelled (init (args (Some 30%Z))) 5 (JStr "reply")
           good_message (idle abc) Hns).
Defined.

(** The entry of the setup time of the worker that runs one job. *)
Lemma timing_streams_capped_witness :
  100%Z = 100%Z /\
  ("queue-setup-time" = "queue" +:+ "-setup-time" \/
   "queue-setup-time" = "queue" +:+ "-run-time") /\
  "queue-setup-time" <> "queue".
Proof.
  apply (timing_streams_capped (args None) 3 5
           (fresh [("value", good_payload)] [false; true]) "queue-setup-time" 1%Z 100%Z).
  vm_compute. repeat constructor.
Defined.

(** The command line with a timeout of 30 seconds. *)
Lemma argv_timeout_times_jobs_witness :
  alarms (handle_message
            (init (mkArgs "localhost" 6379 "queue" "http://upload" "worker-1"
                     (Some "model") (Some "logs") (Some 30%Z) 0))
            5 (JStr "reply") good_message (idle abc)).2 = [30%Z; 0%Z].
Proof.
  assert (Hns : (handle_message
                   (init (mkArgs "localhost" 6379 "queue" "http://upload" "worker-1"
                            (Some "model") (Some "logs") (Some 30%Z) 0))
                   5 (JStr "reply") good_message (idle abc)).1.1 <> Spin)
    by (vm_compute; discriminate).
  exact (argv_timeout_times_jobs int_of "localhost" "6379" "queue" "http://upload"
           "worker-1" "model" "logs" (Some "30")
           (init (mkArgs "localhost" 6379 "queue" "http://upload" "worker-1"
                    (Some "model") (Some "logs") (Some 30%Z) 0))
           5 (JStr "reply") good_message (idle abc) eq_refl Hns).
Defined.

End Runs.
